(** * Colour segmentation to georeferenced polygons

    A shallow embedding of [scripts/process_extracted_map.py] of the
    Cleveland broadband analysis: the colour classifier, the mask cleaner,
    the contour vectorizer, the georeferencer and the category merger.

    Conventions.
    - 8-bit channels are [Z]; the int64 arithmetic numpy does on the
      reference colour and the tolerance, and the cast of the resulting
      bounds to int32 on their way into OpenCV, are written out with their
      wrap-around.
    - Python floats (normalised and geographic coordinates, areas,
      tolerances) are exact rationals [Q] in the polygon model, where
      equalities between coordinates are [Qeq]; the coordinate transform is
      also given in binary64, module [Binary64], for what depends on
      rounding.
    - A Python dict is an association list in insertion order, since the
      script iterates over it.
    - The OpenCV and Shapely entry points whose algorithms live outside the
      repository ([findContours], [arcLength], [approxPolyDP],
      [drawContours], [is_valid], [unary_union], [simplify]) are the fields
      of two interfaces.  The theorems are stated for all their instances;
      the runs on concrete rasters use two small stand-ins that agree with
      the libraries on those rasters. *)

From Stdlib Require Import ZArith QArith Qabs List String Bool Lia Lqa.
From Stdlib Require Floats.
Import ListNotations.

Local Open Scope Z_scope.

(** * Part I: the program *)

(** ** Grids *)

Definition Grid (A : Type) := list (list A).

Definition pixel_at {A : Type} (g : Grid A) (y x : nat) : option A :=
  match nth_error g y with
  | Some row => nth_error row x
  | None => None
  end.

Definition grid_map {A B : Type} (f : A -> B) (g : Grid A) : Grid B :=
  map (map f) g.

(** [map] with the index of each element, counted from [i]. *)
Fixpoint imap_from {A B : Type} (i : Z) (f : Z -> A -> B) (l : list A) : list B :=
  match l with
  | [] => []
  | a :: l' => f i a :: imap_from (i + 1) f l'
  end.

Definition grid_imap {A B : Type} (f : Z -> Z -> A -> B) (g : Grid A) : Grid B :=
  imap_from 0 (fun y row => imap_from 0 (fun x v => f y x v) row) g.

(** ** Colour classifier  ([detect_broadband_regions], lines 56-62) *)

Record RGB := mkRGB { chR : Z; chG : Z; chB : Z }.

(** An RGB raster as [cv2.imread] and [cvtColor] deliver it: rows of pixels. *)
Definition Image := Grid RGB.

(** A [uint8] mask: [255] where set, [0] elsewhere. *)
Definition Mask := Grid Z.

(** One entry of the colour configuration: [{'color': [r,g,b], 'hex': ...}]. *)
Record CategoryInfo := mkInfo { info_color : RGB; info_hex : string }.

Definition ColorConfig := list (string * CategoryInfo).

Definition rgb_map (f : Z -> Z) (c : RGB) : RGB :=
  mkRGB (f (chR c)) (f (chG c)) (f (chB c)).

(** The two's-complement value of an integer kept on [bits] bits. *)
Definition wrap (bits : Z) (v : Z) : Z :=
  (v + 2 ^ (bits - 1)) mod 2 ^ bits - 2 ^ (bits - 1).

(** Arithmetic on an int64 array wraps around without notice.  (A tolerance
    that is itself outside int64 makes numpy raise before any mask is
    built; colours and tolerance are read inside int64 here.) *)
Definition to_int64 (v : Z) : Z := wrap 64 v.

(** An int64 array handed to OpenCV is cast to int32. *)
Definition to_int32 (v : Z) : Z := wrap 32 v.

(** [lower = np.maximum(0, color - tolerance)] *)
Definition lower_of (color : RGB) (tolerance : Z) : RGB :=
  rgb_map (fun c => Z.max 0 (to_int64 (c - tolerance))) color.

(** [upper = np.minimum(255, color + tolerance)] *)
Definition upper_of (color : RGB) (tolerance : Z) : RGB :=
  rgb_map (fun c => Z.min 255 (to_int64 (c + tolerance))) color.

Definition channel_in (lo v hi : Z) : bool := (lo <=? v) && (v <=? hi).

(** [cv2.inRange] at one pixel: 255 when every channel is between the
    bounds, both inclusive, 0 otherwise.  The bounds arrive as int32. *)
Definition inRange_px (lower upper p : RGB) : Z :=
  if channel_in (to_int32 (chR lower)) (chR p) (to_int32 (chR upper))
     && channel_in (to_int32 (chG lower)) (chG p) (to_int32 (chG upper))
     && channel_in (to_int32 (chB lower)) (chB p) (to_int32 (chB upper))
  then 255 else 0.

Definition inRange (image : Image) (lower upper : RGB) : Mask :=
  grid_map (inRange_px lower upper) image.

(** Lines 57-62: the mask of one category before any clean-up. *)
Definition classify (image : Image) (info : CategoryInfo) (tolerance : Z) : Mask :=
  let color := info_color info in
  let lower := lower_of color tolerance in
  let upper := upper_of color tolerance in
  inRange image lower upper.

(** A pixel of an 8-bit raster. *)
Definition pixel_ok (p : RGB) : Prop :=
  0 <= chR p <= 255 /\ 0 <= chG p <= 255 /\ 0 <= chB p <= 255.

Definition within_tolerance (C R : RGB) (t : Z) : Prop :=
  Z.abs (chR C - chR R) <= t /\
  Z.abs (chG C - chG R) <= t /\
  Z.abs (chB C - chB R) <= t.

(** The tolerances for which no bound of an 8-bit reference colour wraps:
    from -(2^31 - 256), below which the lower bound leaves int32, to
    2^63 - 256, above which the sum leaves int64. *)
Definition tolerance_ok (t : Z) : Prop :=
  -2147483392 <= t <= 9223372036854775552.

Definition within_clamped_box (C R : RGB) (t : Z) : Prop :=
  (Z.max 0 (chR R - t) <= chR C <= Z.min 255 (chR R + t)) /\
  (Z.max 0 (chG R - t) <= chG C <= Z.min 255 (chG R + t)) /\
  (Z.max 0 (chB R - t) <= chB C <= Z.min 255 (chB R + t)).

(** ** Morphology  ([cv2.morphologyEx] with [np.ones((5, 5))], lines 65-71) *)

Definition lookupZ (m : Mask) (y x : Z) : option Z :=
  if (0 <=? y) && (0 <=? x) then pixel_at m (Z.to_nat y) (Z.to_nat x) else None.

(** Offsets of the 5x5 kernel around its anchor, the centre. *)
Definition kernel_offsets : list Z := [-2; -1; 0; 1; 2].

(** The pixels under the kernel that fall inside the image.  The default
    border of [morphologyEx] leaves the pixels outside out of both the
    maximum and the minimum. *)
Definition window (m : Mask) (y x : Z) : list Z :=
  flat_map (fun dy =>
    flat_map (fun dx =>
      match lookupZ m (y + dy) (x + dx) with
      | Some v => [v]
      | None => []
      end) kernel_offsets) kernel_offsets.

Definition dilate (m : Mask) : Mask :=
  grid_imap (fun y x _ => fold_right Z.max 0 (window m y x)) m.

Definition erode (m : Mask) : Mask :=
  grid_imap (fun y x _ => fold_right Z.min 255 (window m y x)) m.

Inductive MorphOp := MORPH_CLOSE | MORPH_OPEN.

Definition morphologyEx (m : Mask) (op : MorphOp) : Mask :=
  match op with
  | MORPH_CLOSE => erode (dilate m)
  | MORPH_OPEN => dilate (erode m)
  end.

Definition zeros_like (m : Mask) : Mask := grid_map (fun _ => 0) m.

(** The row lengths of a mask. *)
Definition shape (m : Mask) : list nat := map (@List.length Z) m.

(** Every value is a [uint8]. *)
Definition mask_bounded (m : Mask) : Prop :=
  forall y x v, lookupZ m y x = Some v -> 0 <= v <= 255.

Definition opt_le (a b : option Z) : Prop :=
  match a, b with
  | Some u, Some v => u <= v
  | None, None => True
  | _, _ => False
  end.

(** Pixel by pixel, on masks of one shape. *)
Definition mask_le (m m' : Mask) : Prop :=
  forall y x, opt_le (lookupZ m y x) (lookupZ m' y x).

(** ** Geometry  (the part of Shapely the script computes with) *)

Definition Point := (Q * Q)%type.
Definition Ring := list Point.

Record Polygon := mkPolygon { exterior : Ring; interiors : list Ring }.

Definition pt_eqb (p q : Point) : bool :=
  Qeq_bool (fst p) (fst q) && Qeq_bool (snd p) (snd q).

(** Equality of points up to the representation of their coordinates. *)
Definition pt_eq (p q : Point) : Prop :=
  (fst p == fst q)%Q /\ (snd p == snd q)%Q.

(** Three vertices of the ring, no two of them equal. *)
Definition three_distinct (r : Ring) : Prop :=
  exists a b c,
    In a r /\ In b r /\ In c r /\
    ~ pt_eq a b /\ ~ pt_eq a c /\ ~ pt_eq b c.

(** The ring ends where it starts. *)
Definition ring_closed (r : Ring) : Prop :=
  match r with
  | [] => True
  | a :: l => pt_eq a (last l a)
  end.

(** A linear ring repeats its first coordinate at the end; Shapely adds it
    when the sequence it is given is open. *)
Definition close_ring (r : Ring) : Ring :=
  match r with
  | [] => []
  | p :: _ => if pt_eqb p (last r p) then r else r ++ [p]
  end.

(** [Polygon(coords)]: a shell and no holes. *)
Definition Polygon_of (coords : Ring) : Polygon :=
  mkPolygon (close_ring coords) [].

Definition cross (p q : Point) : Q := (fst p * snd q - fst q * snd p)%Q.

(** Twice the signed area swept along a coordinate sequence. *)
Fixpoint shoelace (r : Ring) : Q :=
  match r with
  | p :: (q :: _) as tl => (cross p q + shoelace tl)%Q
  | _ => 0%Q
  end.

Definition ring_area (r : Ring) : Q := (Qabs (shoelace r) / 2)%Q.

Definition Qsum (l : list Q) : Q := fold_right Qplus 0%Q l.

(** [polygon.area]: the shell's area less the area of the holes. *)
Definition area (p : Polygon) : Q :=
  (ring_area (exterior p) - Qsum (map ring_area (interiors p)))%Q.

Inductive Geometry :=
| GeomPolygon (p : Polygon)
| GeomMultiPolygon (geoms : list Polygon)
| GeomOther.

(** The simple polygons a union result is made of; a result that is neither
    a Polygon nor a MultiPolygon contributes none (lines 220-232). *)
Definition geoms_of (g : Geometry) : list Polygon :=
  match g with
  | GeomPolygon p => [p]
  | GeomMultiPolygon geoms => geoms
  | GeomOther => []
  end.

(** ** The two libraries *)

Definition Contour := list (Z * Z).

Class OpenCV := {
  (** [cv2.findContours(mask, RETR_EXTERNAL, CHAIN_APPROX_SIMPLE)] *)
  findContours : Mask -> list Contour;
  (** [cv2.arcLength(contour, True)] *)
  arcLength : Contour -> Q;
  (** [cv2.approxPolyDP(contour, epsilon, True)] *)
  approxPolyDP : Contour -> Q -> Contour;
  (** [cv2.drawContours(image, contours, -1, 255, -1)] *)
  drawContours : Mask -> list Contour -> Mask
}.

Class Shapely := {
  (** [polygon.is_valid] *)
  is_valid : Polygon -> bool;
  (** [unary_union(geometries)] *)
  unary_union : list Polygon -> Geometry;
  (** [geometry.simplify(tolerance)] *)
  simplify : Polygon -> Q -> Polygon
}.

(** [cv2.contourArea(contour)]: Green's formula over the closed contour,
    halved, in absolute value. *)
Fixpoint green_sum (prev : Z * Z) (c : Contour) : Z :=
  match c with
  | [] => 0
  | p :: c' => (fst prev * snd p - snd prev * fst p) + green_sum p c'
  end.

Definition contourArea (c : Contour) : Q :=
  match c with
  | [] => 0%Q
  | p0 :: _ => (Qabs (inject_Z (green_sum (last c p0) c)) * 0.5)%Q
  end.

(** ** Records *)

Record PolyRecord := mkRecord {
  geometry : Polygon;
  speed_category : string;
  color : string
}.

Definition dict_get {V : Type} (d : list (string * V)) (k : string) : option V :=
  option_map snd (find (fun kv => String.eqb (fst kv) k) d).

Definition color_map : list (string * string) :=
  [ ("0-9 Mbps", "#FF0000");
    ("10-24 Mbps", "#FFA500");
    ("25-49 Mbps", "#FFFF00");
    ("50-100 Mbps", "#90EE90");
    ("100+ Mbps", "#008000") ]%string.

(** [color_map.get(category, '#FFFFFF')] *)
Definition mask_category_to_hex (category : string) : string :=
  match dict_get color_map category with
  | Some h => h
  | None => "#FFFFFF"%string
  end.

(** The colour table [main] falls back to when no configuration file is
    found (lines 289-295). *)
Definition default_color_config : ColorConfig :=
  [ ("0-9 Mbps", mkInfo (mkRGB 204 0 0) "#CC0000");
    ("10-24 Mbps", mkInfo (mkRGB 255 127 0) "#FF7F00");
    ("25-49 Mbps", mkInfo (mkRGB 255 255 0) "#FFFF00");
    ("50-100 Mbps", mkInfo (mkRGB 127 201 127) "#7FC97F");
    ("100+ Mbps", mkInfo (mkRGB 0 114 0) "#007200") ]%string.

Definition emit {A : Type} (o : option A) : list A :=
  match o with
  | Some a => [a]
  | None => []
  end.

Definition Qlt_bool (a b : Q) : bool := negb (Qle_bool b a).

(** ** Georeferencer *)

Record BBox := mkBBox { west : Q; east : Q; south : Q; north : Q }.

Definition CLEVELAND_BBOX : BBox :=
  mkBBox (-81.82)%Q (-81.55)%Q 41.39%Q 41.60%Q.

Definition bbox_ok (b : BBox) : Prop :=
  (west b < east b)%Q /\ (south b < north b)%Q.

(** Lines 188-190, in exact arithmetic; [Binary64.geo_point] below is the
    same transform on floats. *)
Definition geo_point (bbox : BBox) (p : Point) : Point :=
  let '(x, y) := p in
  let lon := (west bbox + x * (east bbox - west bbox))%Q in
  let lat := (north bbox - y * (north bbox - south bbox))%Q in
  (lon, lat).

Definition georeference_polygons (polygons : list PolyRecord) (bbox : BBox)
  : list PolyRecord :=
  map (fun poly_dict =>
         let polygon := geometry poly_dict in
         let coords := exterior polygon in
         let geo_coords := map (geo_point bbox) coords in
         let geo_polygon := Polygon_of geo_coords in
         mkRecord geo_polygon (speed_category poly_dict) (color poly_dict))
      polygons.

(** The same transform as Python computes it: on binary64 floats, every
    operation rounded to nearest. *)
Module Binary64.

Import Floats.
#[local] Set Warnings "-inexact-float".
#[local] Open Scope float_scope.

Record BBox := mkBBox { west : float; east : float; south : float; north : float }.

(** The literals of lines 17-20, read as Python reads them: the nearest
    double. *)
Definition CLEVELAND_BBOX : BBox := mkBBox (-81.82) (-81.55) 41.39 41.60.

(** Lines 188-190. *)
Definition geo_point (bbox : BBox) (p : float * float) : float * float :=
  let '(x, y) := p in
  let lon := west bbox + x * (east bbox - west bbox) in
  let lat := north bbox - y * (north bbox - south bbox) in
  (lon, lat).

(** Lines 186-190: the loop over the coordinates of one exterior. *)
Definition geo_coords (bbox : BBox) (coords : list (float * float))
  : list (float * float) :=
  map (geo_point bbox) coords.

(** West -2.0, east -0.9: a well-formed box whose width is not a double. *)
Definition uneven_bbox : BBox := mkBBox (-2.0) (-0.9) 0 1.

End Binary64.

Section Pipeline.

Context {cv : OpenCV} {geos : Shapely}.

(** ** Mask cleaner  (lines 64-78) *)

Definition clean (mask : Mask) : Mask :=
  let mask := morphologyEx mask MORPH_CLOSE in
  let mask := morphologyEx mask MORPH_OPEN in
  let contours := findContours mask in
  let mask_filled := zeros_like mask in
  drawContours mask_filled contours.

Definition detect_broadband_regions
    (image : Image) (color_config : ColorConfig) (tolerance : Z)
  : list (string * Mask) :=
  map (fun '(category, info) => (category, clean (classify image info tolerance)))
      color_config.

(** ** Contour vectorizer  ([masks_to_polygons]) *)

Definition normalize (width height : Z) (p : Z * Z) : Point :=
  (inject_Z (fst p) / inject_Z width, inject_Z (snd p) / inject_Z height)%Q.

(** The body of the loop over contours (lines 131-155): the record the
    contour gives rise to, if any. *)
Definition contour_to_record
    (category : string) (width height : Z) (contour : Contour)
  : option PolyRecord :=
  if Qlt_bool (contourArea contour) 100 then None
  else
    let epsilon := (0.002 * arcLength contour)%Q in
    let approx := approxPolyDP contour epsilon in
    if (3 <=? List.length approx)%nat then
      let coords := map (normalize width height) approx in
      let polygon := Polygon_of coords in
      if is_valid polygon && Qlt_bool 0 (area polygon) then
        Some (mkRecord polygon category (mask_category_to_hex category))
      else None
    else None.

(** The polygon a contour is turned into, once it has passed the area
    filter: simplified with 0.2 % of its perimeter, then normalised. *)
Definition simplified (contour : Contour) : Contour :=
  approxPolyDP contour (0.002 * arcLength contour)%Q.

Definition polygon_of_contour (width height : Z) (contour : Contour) : Polygon :=
  Polygon_of (map (normalize width height) (simplified contour)).

Definition polygons_of_mask
    (category : string) (width height : Z) (mask : Mask) : list PolyRecord :=
  flat_map (fun contour => emit (contour_to_record category width height contour))
           (findContours mask).

(** [image_shape[:2]] is [(height, width)]. *)
Definition masks_to_polygons
    (masks : list (string * Mask)) (image_shape : Z * Z) : list PolyRecord :=
  let '(height, width) := image_shape in
  flat_map (fun '(category, mask) => polygons_of_mask category width height mask)
           masks.

(** ** Category merger  ([create_geojson]) *)

(** [gpd.GeoDataFrame(rows, crs='EPSG:4326')]: without a row there is no
    geometry column, and the constructor, or the first access to
    ['geometry'], raises. *)
Definition GeoDataFrame (rows : list PolyRecord) : option (list PolyRecord) :=
  match rows with
  | [] => None
  | _ => Some rows
  end.

Definition same_category (category : string) (r : PolyRecord) : bool :=
  String.eqb (speed_category r) category.

(** The body of the loop over categories (lines 214-232). *)
Definition merge_category (gdf : list PolyRecord) (category : string)
  : list PolyRecord :=
  let category_polys := filter (same_category category) gdf in
  if (0 <? List.length category_polys)%nat then
    let merged := unary_union (map geometry category_polys) in
    match merged with
    | GeomPolygon p =>
        [mkRecord p category (mask_category_to_hex category)]
    | GeomMultiPolygon geoms =>
        map (fun poly => mkRecord poly category (mask_category_to_hex category))
            geoms
    | GeomOther => []
    end
  else [].

(** [final_gdf['geometry'].simplify(0.0001)] on one row. *)
Definition simplify_row (r : PolyRecord) : PolyRecord :=
  mkRecord (simplify (geometry r) 0.0001%Q) (speed_category r) (color r).

(** [set(gdf['speed_category'])]: each category once; the order in which
    Python walks the set is not fixed, the first occurrences stand for it. *)
Definition categories_of (gdf : list PolyRecord) : list string :=
  nodup string_dec (map speed_category gdf).

Definition create_geojson (polygons : list PolyRecord)
  : option (list PolyRecord) :=
  match GeoDataFrame polygons with
  | None => None
  | Some gdf =>
      let categories := categories_of gdf in
      let merged_polygons := flat_map (merge_category gdf) categories in
      match GeoDataFrame merged_polygons with
      | None => None
      | Some final_gdf => Some (map simplify_row final_gdf)
      end
  end.

(** ** The run  ([main], lines 306-343) *)

Inductive RunOutcome :=
| NoPolygonsDetected
    (** line 322: the message is printed and [main] returns; nothing has
        been georeferenced and no file is written *)
| Saved (gdf : list PolyRecord)
    (** the feature collection written to the output path *)
| ErrorOccurred.
    (** an exception reached the handler of line 346 *)

(** [image.shape[:2]] *)
Definition shape_of (image : Image) : Z * Z :=
  (Z.of_nat (List.length image), Z.of_nat (List.length (hd [] image))).

Definition main (image : Image) (color_config : ColorConfig) (tolerance : Z)
  : RunOutcome :=
  let masks := detect_broadband_regions image color_config tolerance in
  let polygons := masks_to_polygons masks (shape_of image) in
  match polygons with
  | [] => NoPolygonsDetected
  | _ =>
      let geo_polygons := georeference_polygons polygons CLEVELAND_BBOX in
      match create_geojson geo_polygons with
      | Some gdf => Saved gdf
      | None => ErrorOccurred
      end
  end.

End Pipeline.

(** ** Inputs the statements below are run on *)

Definition red_info : CategoryInfo := mkInfo (mkRGB 204 0 0) "#CC0000".

Definition one_pixel_image : Image := [[mkRGB 200 10 5]].

Definition unit_square : Polygon :=
  mkPolygon [(0, 0); (1, 0); (1, 1); (0, 1); (0, 0)]%Q [].

(** A unit square with a square hole. *)
Definition holed_square : Polygon :=
  mkPolygon [(0, 0); (1, 0); (1, 1); (0, 1); (0, 0)]%Q
            [[(0.25, 0.25); (0.75, 0.25); (0.75, 0.75); (0.25, 0.75); (0.25, 0.25)]%Q].

Definition red_square : PolyRecord := mkRecord unit_square "0-9 Mbps" "#FF0000".

Definition red_holed_square : PolyRecord :=
  mkRecord holed_square "0-9 Mbps" "#FF0000".

(** West and east exchanged, south and north exchanged. *)
Definition inverted_bbox : BBox := mkBBox 1%Q 0%Q 1%Q 0%Q.

(** A second square, apart from [unit_square]. *)
Definition far_square : Polygon :=
  mkPolygon [(2, 0); (3, 0); (3, 1); (2, 1); (2, 0)]%Q [].

Definition red_far_square : PolyRecord :=
  mkRecord far_square "0-9 Mbps" "#FF0000".

Definition green_square : PolyRecord :=
  mkRecord unit_square "100+ Mbps" "#008000".

(** Stand-ins for the two libraries, right on the inputs used below: masks
    that are blank or set throughout, and polygons that do not meet. *)

Definition any_set (m : Mask) : bool := existsb (existsb (Z.eqb 255)) m.

(** The corners of the image, as the outline of a mask set throughout. *)
Definition frame_contour (m : Mask) : Contour :=
  let h := Z.of_nat (List.length m) in
  let w := Z.of_nat (List.length (hd [] m)) in
  [(0, 0); (0, h - 1); (w - 1, h - 1); (w - 1, 0)].

(** Length of a path along the axes. *)
Fixpoint path_length (prev : Z * Z) (c : Contour) : Z :=
  match c with
  | [] => 0
  | p :: c' =>
      Z.abs (fst p - fst prev) + Z.abs (snd p - snd prev) + path_length p c'
  end.

Definition solid_cv : OpenCV :=
  {| findContours := fun m => if any_set m then [frame_contour m] else [];
     arcLength := fun c =>
       match c with
       | [] => 0%Q
       | p0 :: _ => inject_Z (path_length (last c p0) c)
       end;
     approxPolyDP := fun c _ => c;
     drawContours := fun m cs =>
       match cs with
       | [] => m
       | _ => grid_map (fun _ => 255) m
       end |}.

Definition disjoint_geos : Shapely :=
  {| is_valid := fun _ => true;
     unary_union := fun l =>
       match l with
       | [p] => GeomPolygon p
       | _ => GeomMultiPolygon l
       end;
     simplify := fun p _ => p |}.

Definition uniform_image (n : nat) (c : RGB) : Image := repeat (repeat c n) n.

(** A 12x12 raster in the reference red of the slowest category. *)
Definition red_image : Image := uniform_image 12 (mkRGB 204 0 0).

(** A 12x12 raster a little off the reference red: within tolerance 50 of
    it, not within 5. *)
Definition off_red_image : Image := uniform_image 12 (mkRGB 200 10 5).

(** A 12x12 raster that matches no category. *)
Definition black_image : Image := uniform_image 12 (mkRGB 0 0 0).

Definition solid_mask (n : nat) : Mask := repeat (repeat 255 n) n.

Definition blank_mask (n : nat) : Mask := repeat (repeat 0 n) n.

(** A contour is inside a [width] x [height] image. *)
Definition in_image (width height : Z) (p : Z * Z) : Prop :=
  0 <= fst p < width /\ 0 <= snd p < height.

Definition in_unit_square (v : Point) : Prop :=
  (0 <= fst v <= 1)%Q /\ (0 <= snd v <= 1)%Q.

(** ** Further notions the properties are stated with *)

(** Every value of the mask is a [uint8], checked. *)
Definition mask_uint8 (m : Mask) : bool :=
  forallb (forallb (fun v => (0 <=? v) && (v <=? 255))) m.

(** Every pixel is either clear or set. *)
Definition mask_binary (m : Mask) : Prop :=
  forall y x v, pixel_at m y x = Some v -> v = 0 \/ v = 255.

(** Every pixel of the mask has the value [c], checked. *)
Definition mask_uniform (c : Z) (m : Mask) : bool :=
  forallb (forallb (Z.eqb c)) m.

(** Closing, then opening: the morphological steps of the cleaner. *)
Definition close_then_open (m : Mask) : Mask :=
  morphologyEx (morphologyEx m MORPH_CLOSE) MORPH_OPEN.


(** The pair a record is merged by. *)
Definition merge_key (r : PolyRecord) : Polygon * string :=
  (geometry r, speed_category r).

(** What the pipeline reads of a configuration entry: the category name
    and the reference colour. *)
Definition config_key (entry : string * CategoryInfo) : string * RGB :=
  (fst entry, info_color (snd entry)).

(** [default_color_config] with other display colours. *)
Definition recolored_config : ColorConfig :=
  map (fun entry => (fst entry, mkInfo (info_color (snd entry)) "#123456"))
      default_color_config.

(** A record that differs from [red_square] in its colour only. *)
Definition red_square_blue : PolyRecord :=
  mkRecord unit_square "0-9 Mbps" "#0000FF".

(** One set pixel in the middle of a 7x7 mask. *)
Definition dot_mask : Mask :=
  [ [0; 0; 0; 0; 0; 0; 0];
    [0; 0; 0; 0; 0; 0; 0];
    [0; 0; 0; 0; 0; 0; 0];
    [0; 0; 0; 255; 0; 0; 0];
    [0; 0; 0; 0; 0; 0; 0];
    [0; 0; 0; 0; 0; 0; 0];
    [0; 0; 0; 0; 0; 0; 0] ].

(** * Part II: properties *)

(** ** Grids *)

Lemma pixel_at_grid_map {A B : Type} (f : A -> B) (g : Grid A) (y x : nat) :
  pixel_at (grid_map f g) y x = option_map f (pixel_at g y x).
Proof.
  unfold pixel_at, grid_map.
  rewrite nth_error_map.
  destruct (nth_error g y) as [row|]; simpl; [|reflexivity].
  now rewrite nth_error_map.
Qed.

(** ** Colour classifier *)

Lemma channel_in_spec (lo v hi : Z) :
  channel_in lo v hi = true <-> lo <= v <= hi.
Proof. unfold channel_in. rewrite andb_true_iff, !Z.leb_le. tauto. Qed.

Lemma inRange_px_set (lower upper p : RGB) :
  inRange_px lower upper p = 255 <->
  (to_int32 (chR lower) <= chR p <= to_int32 (chR upper)) /\
  (to_int32 (chG lower) <= chG p <= to_int32 (chG upper)) /\
  (to_int32 (chB lower) <= chB p <= to_int32 (chB upper)).
Proof.
  unfold inRange_px.
  destruct (channel_in (to_int32 (chR lower)) (chR p) (to_int32 (chR upper))) eqn:Er;
  destruct (channel_in (to_int32 (chG lower)) (chG p) (to_int32 (chG upper))) eqn:Eg;
  destruct (channel_in (to_int32 (chB lower)) (chB p) (to_int32 (chB upper))) eqn:Eb; simpl;
  rewrite <- !channel_in_spec, Er, Eg, Eb;
  intuition (try discriminate; try reflexivity).
Qed.

Lemma to_int64_exact (v : Z) :
  -9223372036854775808 <= v < 9223372036854775808 -> to_int64 v = v.
Proof.
  intros H. unfold to_int64, wrap.
  change (2 ^ (64 - 1)) with 9223372036854775808.
  change (2 ^ 64) with 18446744073709551616.
  rewrite Z.mod_small by lia. lia.
Qed.

Lemma to_int32_exact (v : Z) :
  -2147483648 <= v < 2147483648 -> to_int32 v = v.
Proof.
  intros H. unfold to_int32, wrap.
  change (2 ^ (32 - 1)) with 2147483648.
  change (2 ^ 32) with 4294967296.
  rewrite Z.mod_small by lia. lia.
Qed.

(** For an 8-bit reference channel and a tolerance in range, the bounds
    OpenCV receives are the clamped bounds themselves. *)
Lemma bounds_exact (c t : Z) :
  0 <= c <= 255 -> tolerance_ok t ->
  to_int32 (Z.max 0 (to_int64 (c - t))) = Z.max 0 (c - t) /\
  to_int32 (Z.min 255 (to_int64 (c + t))) = Z.min 255 (c + t).
Proof.
  unfold tolerance_ok. intros Hc Ht.
  rewrite !to_int64_exact by lia.
  split; apply to_int32_exact; lia.
Qed.

Lemma inRange_px_classify (R p : RGB) (t : Z) :
  pixel_ok R -> tolerance_ok t ->
  inRange_px (lower_of R t) (upper_of R t) p = 255 <->
  (Z.max 0 (chR R - t) <= chR p <= Z.min 255 (chR R + t)) /\
  (Z.max 0 (chG R - t) <= chG p <= Z.min 255 (chG R + t)) /\
  (Z.max 0 (chB R - t) <= chB p <= Z.min 255 (chB R + t)).
Proof.
  intros (Hr & Hg & Hb) Ht.
  rewrite inRange_px_set. unfold lower_of, upper_of, rgb_map. simpl.
  destruct (bounds_exact (chR R) t Hr Ht) as [-> ->].
  destruct (bounds_exact (chG R) t Hg Ht) as [-> ->].
  destruct (bounds_exact (chB R) t Hb Ht) as [-> ->].
  reflexivity.
Qed.

Lemma clamped_channel_iff (c r t : Z) :
  0 <= c <= 255 ->
  (Z.max 0 (r - t) <= c <= Z.min 255 (r + t)) <-> Z.abs (c - r) <= t.
Proof. lia. Qed.

(** C1. For a pixel [C] of an 8-bit raster, an 8-bit reference colour [R]
    and a tolerance [t >= 0], the classifier sets the pixel in the
    category's mask exactly when every channel satisfies
    |C[i] - R[i]| <= t; equivalently when every channel lies in
    [R-t, R+t] clamped to [0,255].  The tolerance ranges up to 2^63 - 256,
    the largest for which the int64 sum [R + t] does not wrap. *)
Theorem classifier_marks_iff_within_tolerance
    (image : Image) (info : CategoryInfo) (t : Z) (y x : nat) (C : RGB) :
  0 <= t <= 9223372036854775552 ->
  pixel_ok (info_color info) ->
  pixel_at image y x = Some C ->
  pixel_ok C ->
  (pixel_at (classify image info t) y x = Some 255
     <-> within_tolerance C (info_color info) t) /\
  (within_tolerance C (info_color info) t
     <-> within_clamped_box C (info_color info) t).
Proof.
  intros Ht HR Hpx (Hr & Hg & Hb).
  assert (Hbox : within_tolerance C (info_color info) t
                 <-> within_clamped_box C (info_color info) t).
  { unfold within_tolerance, within_clamped_box.
    rewrite !clamped_channel_iff by assumption. tauto. }
  split; [|exact Hbox].
  rewrite Hbox.
  assert (Hok : tolerance_ok t) by (unfold tolerance_ok; lia).
  unfold classify, inRange.
  rewrite pixel_at_grid_map, Hpx. simpl.
  split.
  - intros H. injection H as H.
    apply (inRange_px_classify _ _ _ HR Hok) in H. exact H.
  - intros H. f_equal. apply (inRange_px_classify _ _ _ HR Hok). exact H.
Qed.

Lemma classifier_marks_iff_within_tolerance_witness :
  (pixel_at (classify one_pixel_image red_info 50) 0 0 = Some 255
     <-> within_tolerance (mkRGB 200 10 5) (info_color red_info) 50) /\
  (within_tolerance (mkRGB 200 10 5) (info_color red_info) 50
     <-> within_clamped_box (mkRGB 200 10 5) (info_color red_info) 50).
Proof.
  apply (classifier_marks_iff_within_tolerance one_pixel_image red_info 50 0 0).
  - lia.
  - unfold pixel_ok; simpl; lia.
  - reflexivity.
  - unfold pixel_ok; simpl; lia.
Defined.

(** Past the range the bounds wrap: at 2^63 - 1 the upper bound of the red
    channel is read as 203 and the reference colour itself is not set; at
    -2^32 both bounds are read as the reference and it is set. *)
Example classify_wraps_outside_range :
  classify [[mkRGB 204 0 0]] red_info 9223372036854775807 = [[0]] /\
  classify [[mkRGB 204 0 0; mkRGB 0 0 0]] red_info (-4294967296) = [[255; 0]] /\
  classify [[mkRGB 204 0 0; mkRGB 0 0 0]] red_info (-1) = [[0; 0]].
Proof. repeat split; vm_compute; reflexivity. Qed.

(** The classifier does set the pixel of the input above. *)
Example classify_one_pixel :
  classify one_pixel_image red_info 50 = [[255]].
Proof. reflexivity. Qed.

Example classify_one_pixel_tight :
  classify one_pixel_image red_info 5 = [[0]].
Proof. reflexivity. Qed.

(** ** Rings and polygons *)

Lemma close_ring_cases (r : Ring) :
  close_ring r = r \/ exists p tl, r = p :: tl /\ close_ring r = r ++ [p].
Proof.
  destruct r as [|p tl]; [now left|].
  unfold close_ring.
  destruct (pt_eqb p (last (p :: tl) p)); [now left|].
  right. now exists p, tl.
Qed.

Lemma close_ring_nth (r : Ring) (k : nat) (v : Point) :
  nth_error r k = Some v -> nth_error (close_ring r) k = Some v.
Proof.
  intros H.
  destruct (close_ring_cases r) as [-> | (p & tl & _ & ->)]; [exact H|].
  rewrite nth_error_app1; [exact H|].
  apply nth_error_Some. congruence.
Qed.

Lemma close_ring_incl (r : Ring) (v : Point) :
  In v (close_ring r) <-> In v r.
Proof.
  destruct (close_ring_cases r) as [-> | (p & tl & -> & ->)]; [tauto|].
  rewrite in_app_iff. simpl. tauto.
Qed.

Lemma Forall2_map_graph {A B : Type} (f : A -> B) (l : list A) :
  Forall2 (fun a b => b = f a) l (map f l).
Proof. induction l; simpl; constructor; auto. Qed.

(** Closing a ring leaves the coordinates it was given in place. *)
Lemma firstn_close_ring_map (f : Point -> Point) (ext : Ring) :
  Forall2 (fun p p' => p' = f p) ext
          (firstn (List.length ext) (close_ring (map f ext))).
Proof.
  assert (Hpre : firstn (List.length ext) (close_ring (map f ext)) = map f ext).
  { destruct (close_ring_cases (map f ext)) as [-> | (p & tl & _ & ->)].
    - rewrite <- (length_map f ext). apply firstn_all.
    - rewrite <- (length_map f ext) at 1.
      rewrite firstn_app, firstn_all, Nat.sub_diag. simpl.
      apply app_nil_r. }
  rewrite Hpre. apply Forall2_map_graph.
Qed.

(** ** Georeferencer *)

Lemma georeference_polygons_length (polygons : list PolyRecord) (bbox : BBox) :
  List.length (georeference_polygons polygons bbox) = List.length polygons.
Proof. unfold georeference_polygons. apply length_map. Qed.

Lemma georeference_polygons_nth
    (polygons : list PolyRecord) (bbox : BBox) (i : nat) (r : PolyRecord) :
  nth_error polygons i = Some r ->
  nth_error (georeference_polygons polygons bbox) i
  = Some (mkRecord (Polygon_of (map (geo_point bbox) (exterior (geometry r))))
                   (speed_category r) (color r)).
Proof.
  intros H. unfold georeference_polygons.
  rewrite nth_error_map, H. reflexivity.
Qed.

(** The transform in exact arithmetic.  For a bounding box with
    west < east and south < north and a normalised vertex (x, y) of the unit
    square, the formulas give lon = west + x*(east-west) and
    lat = north - y*(north-south) at the vertex's place in the polygon;
    (0,0) goes to (west, north), (1,1) to (east, south), and with the
    Cleveland box (0.5, 0.5) goes to (-81.685, 41.495).  What the code
    computes on binary64 floats is in [georeferencer_binary64] below. *)
Theorem georeferencer_affine_map
    (bbox : BBox) (polygons : list PolyRecord) (i k : nat)
    (r : PolyRecord) (x y : Q) :
  bbox_ok bbox ->
  (0 <= x <= 1)%Q -> (0 <= y <= 1)%Q ->
  nth_error polygons i = Some r ->
  nth_error (exterior (geometry r)) k = Some (x, y) ->
  (exists r',
      nth_error (georeference_polygons polygons bbox) i = Some r' /\
      nth_error (exterior (geometry r')) k
      = Some ((west bbox + x * (east bbox - west bbox))%Q,
              (north bbox - y * (north bbox - south bbox))%Q)) /\
  pt_eq (geo_point bbox (0, 0)%Q) (west bbox, north bbox) /\
  pt_eq (geo_point bbox (1, 1)%Q) (east bbox, south bbox) /\
  pt_eq (geo_point CLEVELAND_BBOX (0.5, 0.5)%Q) ((-81.685)%Q, 41.495%Q).
Proof.
  intros _ _ _ Hr Hk.
  split; [|repeat split; simpl; try ring].
  eexists. split.
  - apply georeference_polygons_nth. exact Hr.
  - simpl. apply close_ring_nth.
    rewrite nth_error_map, Hk. reflexivity.
Qed.

Lemma georeferencer_affine_map_witness :
  (exists r',
      nth_error (georeference_polygons [red_square] CLEVELAND_BBOX) 0 = Some r' /\
      nth_error (exterior (geometry r')) 2
      = Some ((west CLEVELAND_BBOX
               + 1 * (east CLEVELAND_BBOX - west CLEVELAND_BBOX))%Q,
              (north CLEVELAND_BBOX
               - 1 * (north CLEVELAND_BBOX - south CLEVELAND_BBOX))%Q)) /\
  pt_eq (geo_point CLEVELAND_BBOX (0, 0)%Q)
        (west CLEVELAND_BBOX, north CLEVELAND_BBOX) /\
  pt_eq (geo_point CLEVELAND_BBOX (1, 1)%Q)
        (east CLEVELAND_BBOX, south CLEVELAND_BBOX) /\
  pt_eq (geo_point CLEVELAND_BBOX (0.5, 0.5)%Q) ((-81.685)%Q, 41.495%Q).
Proof.
  apply (georeferencer_affine_map CLEVELAND_BBOX [red_square] 0 2 red_square 1 1).
  - split; reflexivity.
  - split; discriminate.
  - split; discriminate.
  - reflexivity.
  - reflexivity.
Defined.

(** C10. Only the exterior ring of each polygon is transformed: whatever
    holes the input polygon has, the georeferenced polygon is the closed
    image of the exterior and has none. *)
Theorem georeferencer_drops_holes (polygons : list PolyRecord) (bbox : BBox) :
  Forall2
    (fun r r' =>
       exterior (geometry r')
       = close_ring (map (geo_point bbox) (exterior (geometry r))) /\
       interiors (geometry r') = [])
    polygons (georeference_polygons polygons bbox).
Proof.
  induction polygons as [|r polygons IH]; simpl; constructor.
  - split; reflexivity.
  - exact IH.
Qed.

(** A polygon with a hole comes out without it. *)
Example georeference_holed_square :
  map (fun r => interiors (geometry r)) [red_holed_square] = [interiors holed_square] /\
  interiors holed_square <> [] /\
  map (fun r => interiors (geometry r))
      (georeference_polygons [red_holed_square] CLEVELAND_BBOX) = [[]].
Proof. repeat split. discriminate. Qed.

(** C3, as the specification has it, fails: a bounding box with west > east
    and south > north is not rejected; the polygon is transformed with it,
    here into the unit square with east and west, north and south
    exchanged. *)
Lemma malformed_bbox_is_not_rejected :
  ~ bbox_ok inverted_bbox /\
  List.length (georeference_polygons [red_square] inverted_bbox) = 1%nat /\
  Forall2 pt_eq
    (flat_map (fun r => exterior (geometry r))
              (georeference_polygons [red_square] inverted_bbox))
    [(1, 0); (0, 0); (0, 1); (1, 1); (1, 0)]%Q.
Proof.
  split; [|split].
  - intros [H _]. revert H. apply Qle_not_lt. discriminate.
  - reflexivity.
  - simpl.
    repeat (apply Forall2_cons; [split; vm_compute; reflexivity|]).
    apply Forall2_nil.
Qed.

(** C3, amended. [georeference_polygons] validates nothing: for every
    bounding box, also one with west >= east or south >= north, it returns
    one record per input polygon, with the category and colour of the input
    and with every exterior vertex mapped by the affine formulas; the one
    box [main] passes, [CLEVELAND_BBOX], has west < east and south < north. *)
Theorem georeferencer_accepts_every_bbox
    (polygons : list PolyRecord) (bbox : BBox) :
  Forall2
    (fun r r' =>
       speed_category r' = speed_category r /\
       color r' = color r /\
       Forall2 (fun p p' => p' = geo_point bbox p)
               (exterior (geometry r))
               (firstn (List.length (exterior (geometry r)))
                       (exterior (geometry r'))))
    polygons (georeference_polygons polygons bbox) /\
  bbox_ok CLEVELAND_BBOX.
Proof.
  split; [|split; reflexivity].
  induction polygons as [|r polygons IH]; simpl; constructor; [|exact IH].
  split; [reflexivity|split; [reflexivity|]].
  apply firstn_close_ring_map.
Qed.

(** ** Area and distinct vertices *)

Lemma pt_eqb_spec (p q : Point) : pt_eqb p q = true <-> pt_eq p q.
Proof.
  unfold pt_eqb, pt_eq. rewrite andb_true_iff, !Qeq_bool_iff. tauto.
Qed.

Lemma pt_eqb_false (p q : Point) : pt_eqb p q = false <-> ~ pt_eq p q.
Proof.
  rewrite <- pt_eqb_spec. destruct (pt_eqb p q); split; congruence.
Qed.

Lemma pt_eq_refl (p : Point) : pt_eq p p.
Proof. split; reflexivity. Qed.

Lemma pt_eq_sym (p q : Point) : pt_eq p q -> pt_eq q p.
Proof. intros [H1 H2]. split; symmetry; assumption. Qed.

Lemma pt_eq_trans (p q r : Point) : pt_eq p q -> pt_eq q r -> pt_eq p r.
Proof. intros [H1 H2] [H3 H4]. split; etransitivity; eassumption. Qed.

Lemma cross_compat (a a' b b' : Point) :
  pt_eq a a' -> pt_eq b b' -> (cross a b == cross a' b')%Q.
Proof.
  destruct a, a', b, b'. unfold pt_eq, cross. simpl.
  intros [H1 H2] [H3 H4]. rewrite H1, H2, H3, H4. reflexivity.
Qed.

Lemma cross_diag (a b : Point) : pt_eq a b -> (cross a b == 0)%Q.
Proof.
  intros H. rewrite (cross_compat a b b b H (pt_eq_refl b)).
  unfold cross. ring.
Qed.

Lemma cross_antisym (a b : Point) : (cross a b + cross b a == 0)%Q.
Proof. unfold cross. ring. Qed.

(** With two of three points equal, the sweep through the middle one adds
    nothing. *)
Lemma cross_chain (a b z : Point) :
  pt_eq a b \/ pt_eq b z \/ pt_eq a z ->
  (cross a b + cross b z == cross a z)%Q.
Proof.
  intros [H | [H | H]].
  - rewrite (cross_diag a b H).
    rewrite (cross_compat b a z z (pt_eq_sym _ _ H) (pt_eq_refl z)). ring.
  - rewrite (cross_diag b z H).
    rewrite (cross_compat a a b z (pt_eq_refl a) H). ring.
  - rewrite (cross_compat b b z a (pt_eq_refl b) (pt_eq_sym _ _ H)).
    rewrite (cross_diag a z H). apply cross_antisym.
Qed.

Lemma last_cons {A : Type} (l : list A) (a d : A) :
  last (a :: l) d = last l a.
Proof.
  revert a d. induction l as [|b l IH]; intros a d; [reflexivity|].
  change (last (a :: b :: l) d) with (last (b :: l) d).
  rewrite !IH. reflexivity.
Qed.

Lemma last_in {A : Type} (l : list A) (d : A) : In (last l d) (d :: l).
Proof.
  revert d. induction l as [|a l IH]; intros d; [now left|].
  rewrite last_cons. right. apply IH.
Qed.

Lemma two_valued_chain (p q a b z : Point) :
  pt_eq a p \/ pt_eq a q ->
  pt_eq b p \/ pt_eq b q ->
  pt_eq z p \/ pt_eq z q ->
  pt_eq a b \/ pt_eq b z \/ pt_eq a z.
Proof.
  intros [Ha | Ha] [Hb | Hb] [Hz | Hz];
    eauto using pt_eq_sym, pt_eq_trans.
Qed.

(** Along a sequence that visits two points only, the sweep telescopes to
    the cross product of its ends. *)
Lemma shoelace_two_valued (p q a : Point) (l : Ring) :
  (forall v, In v (a :: l) -> pt_eq v p \/ pt_eq v q) ->
  (shoelace (a :: l) == cross a (last l a))%Q.
Proof.
  revert a. induction l as [|b l IH]; intros a H.
  - simpl. symmetry. apply cross_diag, pt_eq_refl.
  - change (shoelace (a :: b :: l)) with (cross a b + shoelace (b :: l))%Q.
    rewrite IH by (intros v Hv; apply H; now right).
    rewrite last_cons.
    apply cross_chain.
    apply (two_valued_chain p q).
    + apply H. now left.
    + apply H. right. now left.
    + apply H. right. apply last_in.
Qed.

Lemma shoelace_closed_two_valued (p q : Point) (r : Ring) :
  ring_closed r ->
  (forall v, In v r -> pt_eq v p \/ pt_eq v q) ->
  (shoelace r == 0)%Q.
Proof.
  destruct r as [|a l]; intros Hc H; [reflexivity|].
  rewrite (shoelace_two_valued p q a l H).
  apply cross_diag. exact Hc.
Qed.

Lemma close_ring_closed (r : Ring) : ring_closed (close_ring r).
Proof.
  destruct r as [|a l]; [exact I|].
  unfold close_ring.
  destruct (pt_eqb a (last (a :: l) a)) eqn:E.
  - apply pt_eqb_spec in E. rewrite last_cons in E. exact E.
  - simpl. rewrite last_last. apply pt_eq_refl.
Qed.

Lemma find_none_all {A : Type} (f : A -> bool) (l : list A) :
  find f l = None -> forall v, In v l -> f v = false.
Proof. intros H v Hv. exact (find_none f l H v Hv). Qed.

(** A closed ring that sweeps a non-zero area has three vertices, no two of
    them equal. *)
Lemma shoelace_nonzero_three_distinct (r : Ring) :
  ring_closed r -> ~ (shoelace r == 0)%Q -> three_distinct r.
Proof.
  intros Hc Hs.
  destruct r as [|a l] eqn:Er; [exfalso; apply Hs; reflexivity|].
  rewrite <- Er in *.
  assert (Ha : In a r) by (rewrite Er; now left).
  destruct (find (fun v => negb (pt_eqb v a)) r) as [b|] eqn:Fb.
  - apply find_some in Fb. destruct Fb as [Hb Hab].
    apply negb_true_iff, pt_eqb_false in Hab.
    destruct (find (fun v => negb (pt_eqb v a) && negb (pt_eqb v b)) r)
      as [c|] eqn:Fc.
    + apply find_some in Fc. destruct Fc as [Hcin Hcab].
      apply andb_true_iff in Hcab. destruct Hcab as [Hca Hcb].
      apply negb_true_iff, pt_eqb_false in Hca.
      apply negb_true_iff, pt_eqb_false in Hcb.
      exists a, b, c. repeat split; try assumption.
      * intros H. apply Hab. now apply pt_eq_sym.
      * intros H. apply Hca. now apply pt_eq_sym.
      * intros H. apply Hcb. now apply pt_eq_sym.
    + exfalso. apply Hs.
      apply (shoelace_closed_two_valued a b r Hc).
      intros v Hv.
      pose proof (find_none_all _ _ Fc v Hv) as Hf. simpl in Hf.
      apply andb_false_iff in Hf.
      destruct Hf as [Hf | Hf]; apply negb_false_iff, pt_eqb_spec in Hf; auto.
  - exfalso. apply Hs.
    apply (shoelace_closed_two_valued a a r Hc).
    intros v Hv.
    pose proof (find_none_all _ _ Fb v Hv) as Hf. simpl in Hf.
    apply negb_false_iff, pt_eqb_spec in Hf. auto.
Qed.

Lemma Qlt_bool_spec (a b : Q) : Qlt_bool a b = true <-> (a < b)%Q.
Proof.
  unfold Qlt_bool. rewrite negb_true_iff.
  split.
  - intros H. apply Qnot_le_lt. intros Hle.
    apply Qle_bool_iff in Hle. congruence.
  - intros H. destruct (Qle_bool b a) eqn:E; [|reflexivity].
    apply Qle_bool_iff in E. exfalso. exact (Qlt_not_le _ _ H E).
Qed.

Lemma area_Polygon_of (coords : Ring) :
  (area (Polygon_of coords) == Qabs (shoelace (close_ring coords)) / 2)%Q.
Proof. unfold area, Polygon_of, ring_area. simpl. ring. Qed.

Lemma positive_area_three_distinct (coords : Ring) :
  (0 < area (Polygon_of coords))%Q ->
  three_distinct (exterior (Polygon_of coords)).
Proof.
  intros H. simpl.
  apply shoelace_nonzero_three_distinct; [apply close_ring_closed|].
  intros Hz. rewrite area_Polygon_of, Hz in H.
  revert H. apply Qle_not_lt. discriminate.
Qed.

Example solid_mask_is_cleaned_to_itself :
  @clean solid_cv (solid_mask 12) = solid_mask 12.
Proof. vm_compute. reflexivity. Qed.

Example morphology_keeps_blank :
  morphologyEx (morphologyEx (blank_mask 12) MORPH_CLOSE) MORPH_OPEN
  = blank_mask 12.
Proof. vm_compute. reflexivity. Qed.

Example contourArea_frame :
  (contourArea (frame_contour (solid_mask 12)) == 121)%Q.
Proof. vm_compute. reflexivity. Qed.

(** ** Contour vectorizer *)

Lemma in_flat_map_emit {A B : Type} (f : A -> option B) (l : list A) (b : B) :
  In b (flat_map (fun a => emit (f a)) l) <-> exists a, In a l /\ f a = Some b.
Proof.
  rewrite in_flat_map. split; intros (a & Ha & H); exists a; split; auto.
  - destruct (f a); simpl in H; [|contradiction].
    destruct H as [->|[]]. reflexivity.
  - rewrite H. now left.
Qed.

Lemma normalize_in_unit_square (width height : Z) (p : Z * Z) :
  in_image width height p -> in_unit_square (normalize width height p).
Proof.
  destruct p as [x y]. unfold in_image, in_unit_square, normalize. simpl.
  intros [[Hx0 Hx1] [Hy0 Hy1]].
  assert (Hw : (inject_Z 0 < inject_Z width)%Q) by (rewrite <- Zlt_Qlt; lia).
  assert (Hh : (inject_Z 0 < inject_Z height)%Q) by (rewrite <- Zlt_Qlt; lia).
  repeat split.
  - apply Qle_shift_div_l; [exact Hw|]. rewrite Qmult_0_l.
    change 0%Q with (inject_Z 0). rewrite <- Zle_Qle. exact Hx0.
  - apply Qle_shift_div_r; [exact Hw|]. rewrite Qmult_1_l, <- Zle_Qle. lia.
  - apply Qle_shift_div_l; [exact Hh|]. rewrite Qmult_0_l.
    change 0%Q with (inject_Z 0). rewrite <- Zle_Qle. exact Hy0.
  - apply Qle_shift_div_r; [exact Hh|]. rewrite Qmult_1_l, <- Zle_Qle. lia.
Qed.

Section PipelineProperties.

Context {cv : OpenCV} {geos : Shapely}.

Lemma contour_to_record_Some
    (category : string) (width height : Z) (contour : Contour) (rec : PolyRecord) :
  contour_to_record category width height contour = Some rec <->
  ~ (contourArea contour < 100)%Q /\
  (3 <= List.length (simplified contour))%nat /\
  is_valid (polygon_of_contour width height contour) = true /\
  (0 < area (polygon_of_contour width height contour))%Q /\
  rec = mkRecord (polygon_of_contour width height contour) category
                 (mask_category_to_hex category).
Proof.
  unfold contour_to_record, polygon_of_contour, simplified.
  set (approx := approxPolyDP contour (0.002 * arcLength contour)%Q).
  set (polygon := Polygon_of (map (normalize width height) approx)).
  rewrite <- (Qlt_bool_spec (contourArea contour) 100).
  rewrite <- (Qlt_bool_spec 0 (area polygon)).
  rewrite <- Nat.leb_le.
  destruct (Qlt_bool (contourArea contour) 100);
  destruct (3 <=? List.length approx)%nat;
  destruct (is_valid polygon);
  destruct (Qlt_bool 0 (area polygon)); simpl;
  (split; [intros H | intros (H1 & H2 & H3 & H4 & H5)]);
  try discriminate; try congruence.
  injection H as <-. repeat split; congruence.
Qed.

Lemma in_polygons_of_mask
    (category : string) (width height : Z) (mask : Mask) (rec : PolyRecord) :
  In rec (polygons_of_mask category width height mask) <->
  exists contour,
    In contour (findContours mask) /\
    contour_to_record category width height contour = Some rec.
Proof. unfold polygons_of_mask. apply in_flat_map_emit. Qed.

Lemma in_masks_to_polygons
    (masks : list (string * Mask)) (height width : Z) (rec : PolyRecord) :
  In rec (masks_to_polygons masks (height, width)) <->
  exists category mask contour,
    In (category, mask) masks /\
    In contour (findContours mask) /\
    contour_to_record category width height contour = Some rec.
Proof.
  unfold masks_to_polygons. rewrite in_flat_map. split.
  - intros ([category mask] & Hin & H).
    apply in_polygons_of_mask in H. destruct H as (contour & Hc & Hr).
    now exists category, mask, contour.
  - intros (category & mask & contour & Hin & Hc & Hr).
    exists (category, mask). split; [exact Hin|].
    apply in_polygons_of_mask. now exists contour.
Qed.

(** C4. Every polygon the vectorizer emits, for any masks, has three
    vertices no two of which are equal, and strictly positive area. *)
Theorem vectorizer_polygons_nondegenerate
    (masks : list (string * Mask)) (image_shape : Z * Z) :
  Forall (fun rec =>
            three_distinct (exterior (geometry rec)) /\
            (0 < area (geometry rec))%Q)
         (masks_to_polygons masks image_shape).
Proof.
  destruct image_shape as [height width].
  apply Forall_forall. intros rec Hrec.
  apply in_masks_to_polygons in Hrec.
  destruct Hrec as (category & mask & contour & _ & _ & Hr).
  apply contour_to_record_Some in Hr.
  destruct Hr as (_ & _ & _ & Harea & ->). simpl.
  split; [|exact Harea].
  apply (positive_area_three_distinct _ Harea).
Qed.

(** C5. A traced contour whose area is below 100 px^2 is discarded; any
    other is simplified with a tolerance of 0.2 % of its perimeter and each
    vertex that remains is divided by the image width in x and by the image
    height in y: when the result has three vertices, is valid and has
    positive area, that polygon is emitted for the category, and nothing
    else is emitted; its vertices lie in the unit square. *)
Theorem vectorizer_contour_rule
    (masks : list (string * Mask)) (height width : Z) :
  0 < width -> 0 < height ->
  (forall category mask contour,
      In (category, mask) masks -> In contour (findContours mask) ->
      Forall (in_image width height) contour) ->
  (forall contour epsilon, incl (approxPolyDP contour epsilon) contour) ->
  (forall category contour,
      (contourArea contour < 100)%Q ->
      contour_to_record category width height contour = None) /\
  (forall category mask contour,
      In (category, mask) masks ->
      In contour (findContours mask) ->
      (100 <= contourArea contour)%Q ->
      let approx := approxPolyDP contour (0.002 * arcLength contour)%Q in
      let polygon :=
        Polygon_of
          (map (fun p => (inject_Z (fst p) / inject_Z width,
                          inject_Z (snd p) / inject_Z height)%Q) approx) in
      (3 <= List.length approx)%nat ->
      is_valid polygon = true ->
      (0 < area polygon)%Q ->
      In (mkRecord polygon category (mask_category_to_hex category))
         (masks_to_polygons masks (height, width))) /\
  (forall rec,
      In rec (masks_to_polygons masks (height, width)) ->
      exists category mask contour,
        In (category, mask) masks /\
        In contour (findContours mask) /\
        (100 <= contourArea contour)%Q /\
        exterior (geometry rec)
        = close_ring
            (map (fun p => (inject_Z (fst p) / inject_Z width,
                            inject_Z (snd p) / inject_Z height)%Q)
                 (approxPolyDP contour (0.002 * arcLength contour)%Q)) /\
        Forall in_unit_square (exterior (geometry rec))).
Proof.
  intros Hw Hh Hbound Hsub. split; [|split].
  - intros category contour Hsmall.
    destruct (contour_to_record category width height contour) as [rec|] eqn:E;
      [|reflexivity].
    apply contour_to_record_Some in E. tauto.
  - intros category mask contour Hin Hc Hbig approx polygon Hlen Hvalid Harea.
    apply in_masks_to_polygons.
    exists category, mask, contour.
    split; [exact Hin|]. split; [exact Hc|].
    apply contour_to_record_Some.
    split; [now apply Qle_not_lt|].
    split; [exact Hlen|]. split; [exact Hvalid|]. split; [exact Harea|].
    reflexivity.
  - intros rec Hrec.
    apply in_masks_to_polygons in Hrec.
    destruct Hrec as (category & mask & contour & Hin & Hc & Hr).
    apply contour_to_record_Some in Hr.
    destruct Hr as (Hbig & _ & _ & _ & ->).
    exists category, mask, contour.
    split; [exact Hin|]. split; [exact Hc|].
    split; [apply Qnot_lt_le; exact Hbig|].
    split; [reflexivity|].
    apply Forall_forall. intros v Hv. simpl in Hv.
    apply close_ring_incl, in_map_iff in Hv.
    destruct Hv as (p & <- & Hp).
    apply normalize_in_unit_square.
    specialize (Hbound category mask contour Hin Hc).
    rewrite Forall_forall in Hbound. apply Hbound.
    apply (Hsub contour _ p Hp).
Qed.

End PipelineProperties.

Section VectorizerRuns.

#[local] Existing Instance solid_cv.
#[local] Existing Instance disjoint_geos.

Lemma vectorizer_contour_rule_witness :
  (forall category contour,
      (contourArea contour < 100)%Q ->
      contour_to_record category 12 12 contour = None) /\
  (forall category mask contour,
      In (category, mask) [("0-9 Mbps"%string, solid_mask 12)] ->
      In contour (findContours mask) ->
      (100 <= contourArea contour)%Q ->
      let approx := approxPolyDP contour (0.002 * arcLength contour)%Q in
      let polygon :=
        Polygon_of
          (map (fun p => (inject_Z (fst p) / inject_Z 12,
                          inject_Z (snd p) / inject_Z 12)%Q) approx) in
      (3 <= List.length approx)%nat ->
      is_valid polygon = true ->
      (0 < area polygon)%Q ->
      In (mkRecord polygon category (mask_category_to_hex category))
         (masks_to_polygons [("0-9 Mbps"%string, solid_mask 12)] (12, 12))) /\
  (forall rec,
      In rec (masks_to_polygons [("0-9 Mbps"%string, solid_mask 12)] (12, 12)) ->
      exists category mask contour,
        In (category, mask) [("0-9 Mbps"%string, solid_mask 12)] /\
        In contour (findContours mask) /\
        (100 <= contourArea contour)%Q /\
        exterior (geometry rec)
        = close_ring
            (map (fun p => (inject_Z (fst p) / inject_Z 12,
                            inject_Z (snd p) / inject_Z 12)%Q)
                 (approxPolyDP contour (0.002 * arcLength contour)%Q)) /\
        Forall in_unit_square (exterior (geometry rec))).
Proof.
  apply (vectorizer_contour_rule [("0-9 Mbps"%string, solid_mask 12)] 12 12).
  - lia.
  - lia.
  - intros category mask contour [H | []] Hc.
    injection H as <- <-.
    destruct Hc as [<- | []].
    repeat constructor; simpl; lia.
  - intros contour epsilon. apply incl_refl.
Defined.

(** The outline of the 12x12 mask set throughout has area 121, four
    vertices and a valid polygon of positive area: it is emitted, with the
    corners divided by 12. *)
Example vectorizer_emits_the_frame :
  masks_to_polygons [("0-9 Mbps"%string, solid_mask 12)] (12, 12)
  = [mkRecord
       (Polygon_of
          (map (normalize 12 12) (frame_contour (solid_mask 12))))
       "0-9 Mbps" "#FF0000"].
Proof. vm_compute. reflexivity. Qed.

(** The 12x12 mask set throughout gives one polygon, so the statements about
    emitted polygons are not about an empty set. *)
Example vectorizer_emits_on_solid_mask :
  List.length (masks_to_polygons [("0-9 Mbps"%string, solid_mask 12)] (12, 12))
  = 1%nat.
Proof. vm_compute. reflexivity. Qed.

End VectorizerRuns.

(** ** Category merger *)

Section MergerProperties.

Context {geos : Shapely}.

Lemma same_category_spec (category : string) (r : PolyRecord) :
  same_category category r = true <-> speed_category r = category.
Proof. unfold same_category. apply String.eqb_eq. Qed.

Lemma merge_category_tag (gdf : list PolyRecord) (category : string) (r : PolyRecord) :
  In r (merge_category gdf category) ->
  speed_category r = category /\ color r = mask_category_to_hex category.
Proof.
  unfold merge_category.
  destruct (0 <? List.length (filter (same_category category) gdf))%nat;
    [|intros []].
  destruct (unary_union _) as [p | geoms |]; simpl.
  - intros [<- | []]. split; reflexivity.
  - rewrite in_map_iff. intros (poly & <- & _). split; reflexivity.
  - intros [].
Qed.

Lemma filter_all {A : Type} (f : A -> bool) (l : list A) :
  (forall a, In a l -> f a = true) -> filter f l = l.
Proof.
  induction l as [|a l IH]; intros H; simpl; [reflexivity|].
  rewrite (H a (or_introl eq_refl)), IH; [reflexivity|].
  intros b Hb. apply H. now right.
Qed.

Lemma filter_none {A : Type} (f : A -> bool) (l : list A) :
  (forall a, In a l -> f a = false) -> filter f l = [].
Proof.
  induction l as [|a l IH]; intros H; simpl; [reflexivity|].
  rewrite (H a (or_introl eq_refl)), IH; [reflexivity|].
  intros b Hb. apply H. now right.
Qed.

Lemma filter_merge_same (gdf : list PolyRecord) (category : string) :
  filter (same_category category) (merge_category gdf category)
  = merge_category gdf category.
Proof.
  apply filter_all. intros r Hr.
  apply same_category_spec. apply (merge_category_tag _ _ _ Hr).
Qed.

Lemma filter_merge_other (gdf : list PolyRecord) (category other : string) :
  other <> category ->
  filter (same_category category) (merge_category gdf other) = [].
Proof.
  intros Hne. apply filter_none. intros r Hr.
  destruct (same_category category r) eqn:E; [|reflexivity].
  apply same_category_spec in E.
  destruct (merge_category_tag _ _ _ Hr) as [Ht _]. congruence.
Qed.

(** Each category is walked once, so the records of a category are those
    its own union expands to. *)
Lemma filter_merged_polygons
    (gdf : list PolyRecord) (categories : list string) (category : string) :
  NoDup categories ->
  filter (same_category category) (flat_map (merge_category gdf) categories)
  = if in_dec string_dec category categories
    then merge_category gdf category else [].
Proof.
  induction 1 as [|other categories Hnotin Hnd IH]; [reflexivity|].
  simpl flat_map. rewrite filter_app, IH.
  destruct (string_dec other category) as [-> | Hne].
  - rewrite filter_merge_same.
    destruct (in_dec string_dec category categories) as [Hin|_];
      [contradiction|].
    destruct (in_dec string_dec category (category :: categories)) as [_|Hn];
      [apply app_nil_r | exfalso; apply Hn; now left].
  - rewrite (filter_merge_other _ _ _ Hne). cbn [app].
    destruct (in_dec string_dec category categories) as [Hin|Hn];
    destruct (in_dec string_dec category (other :: categories)) as [Hin'|Hn'];
      try reflexivity.
    + exfalso. apply Hn'. now right.
    + exfalso. destruct Hin' as [E|Hin']; [congruence | contradiction].
Qed.

Lemma filter_simplify_row (category : string) (l : list PolyRecord) :
  filter (same_category category) (map simplify_row l)
  = map simplify_row (filter (same_category category) l).
Proof.
  induction l as [|r l IH]; simpl; [reflexivity|].
  change (same_category category (simplify_row r))
    with (same_category category r).
  destruct (same_category category r); simpl; now rewrite IH.
Qed.

Lemma merge_category_present (gdf : list PolyRecord) (category : string) :
  In category (map speed_category gdf) ->
  merge_category gdf category
  = map (fun poly => mkRecord poly category (mask_category_to_hex category))
        (geoms_of (unary_union
                     (map geometry (filter (same_category category) gdf)))).
Proof.
  intros Hin. unfold merge_category.
  apply in_map_iff in Hin. destruct Hin as (r & Hr & Hin).
  assert (Hf : In r (filter (same_category category) gdf)).
  { apply filter_In. split; [exact Hin|]. now apply same_category_spec. }
  destruct (filter (same_category category) gdf) as [|r0 l] eqn:E;
    [contradiction|].
  simpl Nat.ltb. cbv iota.
  destruct (unary_union _); reflexivity.
Qed.

(** C6. The merger groups the polygons by category, unions each group and
    emits one record per simple polygon of the union, tagged with the
    group's category and simplified with tolerance 0.0001: a union of k
    parts gives k records of that category. *)
Theorem merger_one_record_per_part
    (polygons : list PolyRecord) (category : string) :
  let group := filter (same_category category) polygons in
  let merged := unary_union (map geometry group) in
  In category (map speed_category polygons) ->
  geoms_of merged <> [] ->
  exists final_gdf,
    create_geojson polygons = Some final_gdf /\
    filter (same_category category) final_gdf
    = map (fun part => mkRecord (simplify part 0.0001%Q) category
                                (mask_category_to_hex category))
          (geoms_of merged) /\
    (forall geoms,
        merged = GeomMultiPolygon geoms ->
        List.length (filter (same_category category) final_gdf)
        = List.length geoms).
Proof.
  intros group merged Hin Hparts.
  assert (Hcat : In category (categories_of polygons)).
  { unfold categories_of. now apply nodup_In. }
  pose proof (merge_category_present polygons category Hin) as Hmerge.
  fold group in Hmerge. fold merged in Hmerge.
  set (merged_polygons := flat_map (merge_category polygons)
                                   (categories_of polygons)).
  assert (Hfilter : filter (same_category category) merged_polygons
                    = merge_category polygons category).
  { unfold merged_polygons.
    rewrite filter_merged_polygons by apply NoDup_nodup.
    destruct (in_dec string_dec category (categories_of polygons));
      [reflexivity | contradiction]. }
  assert (Hne : merged_polygons <> []).
  { intros E. rewrite E in Hfilter. simpl in Hfilter.
    rewrite Hmerge in Hfilter. symmetry in Hfilter.
    apply map_eq_nil in Hfilter. contradiction. }
  exists (map simplify_row merged_polygons).
  assert (Hrows : filter (same_category category)
                         (map simplify_row merged_polygons)
                  = map (fun part => mkRecord (simplify part 0.0001%Q) category
                                              (mask_category_to_hex category))
                        (geoms_of merged)).
  { rewrite filter_simplify_row, Hfilter, Hmerge, map_map. reflexivity. }
  split; [|split].
  - unfold create_geojson.
    destruct polygons as [|r0 polygons']; [contradiction|].
    simpl GeoDataFrame. cbv iota. fold merged_polygons.
    destruct merged_polygons; [contradiction|reflexivity].
  - exact Hrows.
  - intros geoms Hm. rewrite Hrows, length_map, Hm. reflexivity.
Qed.

End MergerProperties.

Lemma merger_one_record_per_part_witness :
  exists final_gdf,
    @create_geojson disjoint_geos [red_square; green_square; red_far_square]
    = Some final_gdf /\
    filter (same_category "0-9 Mbps") final_gdf
    = [mkRecord unit_square "0-9 Mbps" "#FF0000";
       mkRecord far_square "0-9 Mbps" "#FF0000"] /\
    (forall geoms,
        GeomMultiPolygon [unit_square; far_square] = GeomMultiPolygon geoms ->
        List.length (filter (same_category "0-9 Mbps") final_gdf)
        = List.length geoms).
Proof.
  apply (@merger_one_record_per_part disjoint_geos
           [red_square; green_square; red_far_square] "0-9 Mbps").
  - simpl. tauto.
  - discriminate.
Defined.

(** Two same-category regions that do not meet: two records, one tag. *)
Example merger_two_disjoint_regions :
  option_map (map speed_category)
             (@create_geojson disjoint_geos [red_square; red_far_square])
  = Some ["0-9 Mbps"; "0-9 Mbps"]%string.
Proof. vm_compute. reflexivity. Qed.

(** ** The run *)

Section RunProperties.

Context {cv : OpenCV} {geos : Shapely}.

Lemma polygons_of_mask_small_contours
    (category : string) (width height : Z) (mask : Mask) :
  Forall (fun contour => (contourArea contour < 100)%Q) (findContours mask) ->
  polygons_of_mask category width height mask = [].
Proof.
  unfold polygons_of_mask.
  induction 1 as [|contour contours Hsmall _ IH]; [reflexivity|].
  simpl. rewrite IH, app_nil_r.
  destruct (contour_to_record category width height contour) eqn:E;
    [|reflexivity].
  apply contour_to_record_Some in E. tauto.
Qed.

Lemma masks_to_polygons_app
    (before after : list (string * Mask)) (image_shape : Z * Z) :
  masks_to_polygons (before ++ after) image_shape
  = masks_to_polygons before image_shape ++ masks_to_polygons after image_shape.
Proof.
  destruct image_shape as [height width].
  unfold masks_to_polygons. apply flat_map_app.
Qed.

Lemma main_without_polygons
    (image : Image) (color_config : ColorConfig) (tolerance : Z) :
  masks_to_polygons (detect_broadband_regions image color_config tolerance)
                    (shape_of image) = [] ->
  main image color_config tolerance = NoPolygonsDetected.
Proof. intros H. unfold main. rewrite H. reflexivity. Qed.

(** Every record of a run carries the colour of the fixed table, looked up
    by category name; the display colours of the configuration are not
    read. *)
Lemma masks_to_polygons_color
    (masks : list (string * Mask)) (image_shape : Z * Z) :
  Forall (fun rec => color rec = mask_category_to_hex (speed_category rec))
         (masks_to_polygons masks image_shape).
Proof.
  destruct image_shape as [height width].
  apply Forall_forall. intros rec Hrec.
  apply in_masks_to_polygons in Hrec.
  destruct Hrec as (category & mask & contour & _ & _ & Hr).
  apply contour_to_record_Some in Hr.
  destruct Hr as (_ & _ & _ & _ & ->). reflexivity.
Qed.

(** C7, amended. A category whose mask has no contour of at least 100 px^2,
    in particular none at all, yields zero polygons, and the polygons of the
    other categories are what they are without it; when no category yields a
    polygon, [main] prints that none was detected and returns: it
    georeferences nothing, writes no feature collection, and raises no
    error. *)
Theorem empty_category_and_empty_run
    (image : Image) (color_config : ColorConfig) (tolerance : Z) :
  (forall category mask before after,
      Forall (fun contour => (contourArea contour < 100)%Q)
             (findContours mask) ->
      polygons_of_mask category (snd (shape_of image)) (fst (shape_of image))
                       mask = [] /\
      masks_to_polygons (before ++ (category, mask) :: after) (shape_of image)
      = masks_to_polygons (before ++ after) (shape_of image)) /\
  (masks_to_polygons (detect_broadband_regions image color_config tolerance)
                     (shape_of image) = [] ->
   main image color_config tolerance = NoPolygonsDetected).
Proof.
  split.
  - intros category mask before after Hsmall.
    pose proof (polygons_of_mask_small_contours
                  category (snd (shape_of image)) (fst (shape_of image))
                  mask Hsmall) as Hzero.
    split; [exact Hzero|].
    rewrite !masks_to_polygons_app. f_equal.
    change ((category, mask) :: after) with ([(category, mask)] ++ after).
    rewrite masks_to_polygons_app.
    replace (masks_to_polygons [(category, mask)] (shape_of image))
      with (@nil PolyRecord); [reflexivity|].
    unfold shape_of in *. simpl in *. rewrite Hzero. reflexivity.
  - apply main_without_polygons.
Qed.

End RunProperties.

Section Runs.

#[local] Existing Instance solid_cv.
#[local] Existing Instance disjoint_geos.

(** C7, as the specification has it, fails: on a raster that matches no
    category the run yields no polygon, and what the caller gets is the
    early return of line 323, not a feature collection, empty or other. *)
Lemma empty_run_returns_no_collection :
  masks_to_polygons
    (detect_broadband_regions black_image default_color_config 50)
    (shape_of black_image) = [] /\
  main black_image default_color_config 50 = NoPolygonsDetected /\
  main black_image default_color_config 50 <> Saved [].
Proof.
  split; [vm_compute; reflexivity|].
  split; [vm_compute; reflexivity|].
  vm_compute. discriminate.
Qed.

Lemma empty_category_and_empty_run_witness :
  (polygons_of_mask "0-9 Mbps" (snd (shape_of black_image))
                    (fst (shape_of black_image)) (blank_mask 12) = [] /\
   masks_to_polygons ([] ++ ("0-9 Mbps"%string, blank_mask 12) :: [])
                     (shape_of black_image)
   = masks_to_polygons ([] ++ []) (shape_of black_image)) /\
  main black_image default_color_config 50 = NoPolygonsDetected.
Proof.
  pose proof (empty_category_and_empty_run
                black_image default_color_config 50) as [Hcat Hrun].
  split.
  - apply Hcat. vm_compute. constructor.
  - apply Hrun. vm_compute. reflexivity.
Defined.


End Runs.

(** ** Morphology: opening after closing is stable

    The first two steps of the cleaner, on their own, give the same mask
    when applied again. *)

Lemma imap_from_nth {A B : Type} (f : Z -> A -> B) (l : list A) (i : Z) (n : nat) :
  nth_error (imap_from i f l) n = option_map (f (i + Z.of_nat n)) (nth_error l n).
Proof.
  revert i n.
  induction l as [|a l IH]; intros i [|n];
    cbn [imap_from nth_error option_map]; try reflexivity.
  - now rewrite Z.add_0_r.
  - rewrite IH. replace (i + 1 + Z.of_nat n) with (i + Z.of_nat (S n)) by lia.
    reflexivity.
Qed.

Lemma imap_from_length {A B : Type} (f : Z -> A -> B) (l : list A) (i : Z) :
  List.length (imap_from i f l) = List.length l.
Proof. revert i. induction l; intros i; simpl; auto. Qed.

Lemma pixel_at_grid_imap {A B : Type} (f : Z -> Z -> A -> B) (g : Grid A) (y x : nat) :
  pixel_at (grid_imap f g) y x
  = option_map (f (Z.of_nat y) (Z.of_nat x)) (pixel_at g y x).
Proof.
  unfold pixel_at, grid_imap.
  rewrite imap_from_nth.
  destruct (nth_error g y) as [row|]; simpl; [|reflexivity].
  now rewrite imap_from_nth.
Qed.

Lemma lookupZ_grid_imap (f : Z -> Z -> Z -> Z) (m : Mask) (y x : Z) :
  lookupZ (grid_imap f m) y x = option_map (f y x) (lookupZ m y x).
Proof.
  unfold lookupZ.
  destruct ((0 <=? y) && (0 <=? x)) eqn:E; [|reflexivity].
  apply andb_true_iff in E. destruct E as [Hy Hx].
  apply Z.leb_le in Hy. apply Z.leb_le in Hx.
  rewrite pixel_at_grid_imap, !Z2Nat.id by assumption. reflexivity.
Qed.

Lemma shape_grid_imap (f : Z -> Z -> Z -> Z) (m : Mask) :
  shape (grid_imap f m) = shape m.
Proof.
  unfold shape, grid_imap. generalize 0 at 1.
  induction m as [|row m IH]; intros i; simpl; [reflexivity|].
  now rewrite imap_from_length, IH.
Qed.

Lemma pixel_at_lookupZ (m : Mask) (y x : nat) :
  pixel_at m y x = lookupZ m (Z.of_nat y) (Z.of_nat x).
Proof.
  unfold lookupZ.
  replace ((0 <=? Z.of_nat y) && (0 <=? Z.of_nat x)) with true.
  - now rewrite !Nat2Z.id.
  - symmetry. apply andb_true_iff. split; apply Z.leb_le; lia.
Qed.

Lemma grid_ext (g g' : Mask) :
  shape g = shape g' ->
  (forall y x, pixel_at g y x = pixel_at g' y x) ->
  g = g'.
Proof.
  revert g'. induction g as [|row g IH]; intros [|row' g'] Hs Hp;
    try discriminate; [reflexivity|].
  injection Hs as _ Hs.
  f_equal.
  - apply nth_error_ext. intros x. exact (Hp 0%nat x).
  - apply IH; [exact Hs|]. intros y x. exact (Hp (S y) x).
Qed.

Lemma in_window (m : Mask) (y x v : Z) :
  In v (window m y x) <->
  exists dy dx,
    In dy kernel_offsets /\ In dx kernel_offsets /\
    lookupZ m (y + dy) (x + dx) = Some v.
Proof.
  unfold window. rewrite in_flat_map. split.
  - intros (dy & Hdy & H). apply in_flat_map in H.
    destruct H as (dx & Hdx & H).
    exists dy, dx. repeat split; try assumption.
    destruct (lookupZ m (y + dy) (x + dx)); simpl in H; [|contradiction].
    destruct H as [-> | []]. reflexivity.
  - intros (dy & dx & Hdy & Hdx & H).
    exists dy. split; [exact Hdy|].
    apply in_flat_map. exists dx. split; [exact Hdx|].
    rewrite H. now left.
Qed.

Lemma kernel_symmetric (d : Z) : In d kernel_offsets -> In (- d) kernel_offsets.
Proof.
  unfold kernel_offsets. intros H.
  repeat (destruct H as [<- | H]; [simpl; tauto|]).
  destruct H.
Qed.

(** The kernel is symmetric: a pixel lies under the kernel anchored at any
    pixel that lies under the kernel anchored at it. *)
Lemma window_symmetric (m : Mask) (y x dy dx a : Z) :
  In dy kernel_offsets -> In dx kernel_offsets ->
  lookupZ m y x = Some a ->
  In a (window m (y + dy) (x + dx)).
Proof.
  intros Hdy Hdx H. apply in_window.
  exists (- dy), (- dx).
  repeat split; try now apply kernel_symmetric.
  replace (y + dy + - dy) with y by lia.
  replace (x + dx + - dx) with x by lia. exact H.
Qed.

Lemma fold_max_le (l : list Z) (b : Z) :
  fold_right Z.max 0 l <= b <-> 0 <= b /\ forall v, In v l -> v <= b.
Proof.
  induction l as [|a l IH]; simpl.
  - intuition.
  - rewrite Z.max_lub_iff, IH. intuition (subst; auto).
Qed.

Lemma fold_min_ge (l : list Z) (a : Z) :
  a <= fold_right Z.min 255 l <-> a <= 255 /\ forall v, In v l -> a <= v.
Proof.
  induction l as [|b l IH]; simpl.
  - intuition.
  - rewrite Z.min_glb_iff, IH. intuition (subst; auto).
Qed.

Lemma fold_max_nonneg (l : list Z) : 0 <= fold_right Z.max 0 l.
Proof. exact (proj1 (proj1 (fold_max_le l _) (Z.le_refl _))). Qed.

Lemma fold_max_ub (l : list Z) (v : Z) : In v l -> v <= fold_right Z.max 0 l.
Proof. exact (proj2 (proj1 (fold_max_le l _) (Z.le_refl _)) v). Qed.

Lemma fold_min_le_255 (l : list Z) : fold_right Z.min 255 l <= 255.
Proof. exact (proj1 (proj1 (fold_min_ge l _) (Z.le_refl _))). Qed.

Lemma fold_min_lb (l : list Z) (v : Z) : In v l -> fold_right Z.min 255 l <= v.
Proof. exact (proj2 (proj1 (fold_min_ge l _) (Z.le_refl _)) v). Qed.

Lemma lookupZ_dilate (m : Mask) (y x : Z) :
  lookupZ (dilate m) y x
  = option_map (fun _ => fold_right Z.max 0 (window m y x)) (lookupZ m y x).
Proof. unfold dilate. apply lookupZ_grid_imap. Qed.

Lemma lookupZ_erode (m : Mask) (y x : Z) :
  lookupZ (erode m) y x
  = option_map (fun _ => fold_right Z.min 255 (window m y x)) (lookupZ m y x).
Proof. unfold erode. apply lookupZ_grid_imap. Qed.

Lemma shape_dilate (m : Mask) : shape (dilate m) = shape m.
Proof. apply shape_grid_imap. Qed.

Lemma shape_erode (m : Mask) : shape (erode m) = shape m.
Proof. apply shape_grid_imap. Qed.

Lemma opt_le_refl (a : option Z) : opt_le a a.
Proof. destruct a; simpl; [lia | exact I]. Qed.

Lemma opt_le_trans (a b c : option Z) : opt_le a b -> opt_le b c -> opt_le a c.
Proof. destruct a, b, c; simpl; try tauto; lia. Qed.

Lemma opt_le_antisym (a b : option Z) : opt_le a b -> opt_le b a -> a = b.
Proof.
  destruct a, b; simpl; try tauto.
  intros H1 H2. f_equal. lia.
Qed.

Lemma mask_le_refl (m : Mask) : mask_le m m.
Proof. intros y x. apply opt_le_refl. Qed.

Lemma mask_le_trans (a b c : Mask) : mask_le a b -> mask_le b c -> mask_le a c.
Proof. intros H1 H2 y x. exact (opt_le_trans _ _ _ (H1 y x) (H2 y x)). Qed.

Lemma mask_le_antisym (a b : Mask) :
  shape a = shape b -> mask_le a b -> mask_le b a -> a = b.
Proof.
  intros Hs H1 H2. apply grid_ext; [exact Hs|].
  intros y x. rewrite !pixel_at_lookupZ.
  apply opt_le_antisym; [apply H1 | apply H2].
Qed.

Lemma dilate_bounded (m : Mask) : mask_bounded m -> mask_bounded (dilate m).
Proof.
  intros Hb y x v. rewrite lookupZ_dilate.
  destruct (lookupZ m y x); simpl; [|discriminate].
  intros H. injection H as <-. split.
  - apply fold_max_nonneg.
  - apply fold_max_le. split; [lia|].
    intros v Hv. apply in_window in Hv.
    destruct Hv as (dy & dx & _ & _ & Hv). apply (Hb _ _ _ Hv).
Qed.

Lemma erode_bounded (m : Mask) : mask_bounded m -> mask_bounded (erode m).
Proof.
  intros Hb y x v. rewrite lookupZ_erode.
  destruct (lookupZ m y x); simpl; [|discriminate].
  intros H. injection H as <-. split.
  - apply fold_min_ge. split; [lia|].
    intros v Hv. apply in_window in Hv.
    destruct Hv as (dy & dx & _ & _ & Hv). apply (Hb _ _ _ Hv).
  - apply fold_min_le_255.
Qed.

Lemma dilate_mono (a b : Mask) : mask_le a b -> mask_le (dilate a) (dilate b).
Proof.
  intros H y x. rewrite !lookupZ_dilate.
  pose proof (H y x) as Hp.
  destruct (lookupZ a y x), (lookupZ b y x); simpl in *; try tauto.
  apply fold_max_le. split.
  - apply fold_max_nonneg.
  - intros v Hv. apply in_window in Hv.
    destruct Hv as (dy & dx & Hdy & Hdx & Hv).
    pose proof (H (y + dy) (x + dx)) as Hq. rewrite Hv in Hq.
    destruct (lookupZ b (y + dy) (x + dx)) as [w|] eqn:Hw; simpl in Hq;
      [|contradiction].
    apply Z.le_trans with w; [exact Hq|].
    apply fold_max_ub.
    apply in_window. now exists dy, dx.
Qed.

Lemma erode_mono (a b : Mask) : mask_le a b -> mask_le (erode a) (erode b).
Proof.
  intros H y x. rewrite !lookupZ_erode.
  pose proof (H y x) as Hp.
  destruct (lookupZ a y x), (lookupZ b y x); simpl in *; try tauto.
  apply fold_min_ge. split.
  - apply fold_min_le_255.
  - intros w Hw. apply in_window in Hw.
    destruct Hw as (dy & dx & Hdy & Hdx & Hw).
    pose proof (H (y + dy) (x + dx)) as Hq. rewrite Hw in Hq.
    destruct (lookupZ a (y + dy) (x + dx)) as [v|] eqn:Hv; simpl in Hq;
      [|contradiction].
    apply Z.le_trans with v; [|exact Hq].
    apply fold_min_lb.
    apply in_window. now exists dy, dx.
Qed.

(** Closing only adds. *)
Lemma close_extensive (m : Mask) :
  mask_bounded m -> mask_le m (morphologyEx m MORPH_CLOSE).
Proof.
  intros Hb y x. simpl. rewrite lookupZ_erode, lookupZ_dilate.
  destruct (lookupZ m y x) as [a|] eqn:Ha; simpl; [|exact I].
  apply fold_min_ge. split; [apply (Hb _ _ _ Ha)|].
  intros v Hv. apply in_window in Hv.
  destruct Hv as (dy & dx & Hdy & Hdx & Hv).
  rewrite lookupZ_dilate in Hv.
  destruct (lookupZ m (y + dy) (x + dx)); simpl in Hv; [|discriminate].
  injection Hv as <-.
  apply fold_max_ub.
  now apply window_symmetric.
Qed.

(** Opening only removes. *)
Lemma open_anti_extensive (m : Mask) :
  mask_bounded m -> mask_le (morphologyEx m MORPH_OPEN) m.
Proof.
  intros Hb y x. simpl. rewrite lookupZ_dilate, lookupZ_erode.
  destruct (lookupZ m y x) as [a|] eqn:Ha; simpl; [|exact I].
  apply fold_max_le. split; [apply (Hb _ _ _ Ha)|].
  intros v Hv. apply in_window in Hv.
  destruct Hv as (dy & dx & Hdy & Hdx & Hv).
  rewrite lookupZ_erode in Hv.
  destruct (lookupZ m (y + dy) (x + dx)); simpl in Hv; [|discriminate].
  injection Hv as <-.
  apply fold_min_lb.
  now apply window_symmetric.
Qed.

Lemma dilate_erode_dilate (m : Mask) :
  mask_bounded m -> dilate (erode (dilate m)) = dilate m.
Proof.
  intros Hb. apply mask_le_antisym.
  - now rewrite !shape_dilate, shape_erode, shape_dilate.
  - apply (open_anti_extensive (dilate m)). now apply dilate_bounded.
  - apply dilate_mono. now apply (close_extensive m).
Qed.

Lemma erode_dilate_erode (m : Mask) :
  mask_bounded m -> erode (dilate (erode m)) = erode m.
Proof.
  intros Hb. apply mask_le_antisym.
  - now rewrite !shape_erode, shape_dilate, shape_erode.
  - apply erode_mono. now apply (open_anti_extensive m).
  - apply (close_extensive (erode m)). now apply erode_bounded.
Qed.

(** Closing followed by opening, the morphological part of the cleaner, is
    idempotent on every [uint8] mask. *)
Lemma open_after_close_idempotent (m : Mask) :
  mask_bounded m ->
  let once := morphologyEx (morphologyEx m MORPH_CLOSE) MORPH_OPEN in
  morphologyEx (morphologyEx once MORPH_CLOSE) MORPH_OPEN = once.
Proof.
  intros Hb once.
  set (closed := morphologyEx m MORPH_CLOSE).
  assert (Hcb : mask_bounded closed)
    by (apply erode_bounded, dilate_bounded, Hb).
  assert (Hob : mask_bounded once)
    by (apply dilate_bounded, erode_bounded, Hcb).
  assert (Hcc : morphologyEx closed MORPH_CLOSE = closed).
  { unfold closed. simpl. now rewrite dilate_erode_dilate. }
  assert (Hoo : morphologyEx once MORPH_OPEN = once).
  { unfold once. simpl. now rewrite erode_dilate_erode. }
  assert (Hco : mask_le (morphologyEx once MORPH_CLOSE) closed).
  { apply mask_le_trans with (morphologyEx closed MORPH_CLOSE).
    - simpl. apply erode_mono, dilate_mono.
      apply (open_anti_extensive closed Hcb).
    - rewrite Hcc. apply mask_le_refl. }
  apply mask_le_antisym.
  - unfold once, closed. simpl.
    repeat (rewrite shape_dilate || rewrite shape_erode). reflexivity.
  - change (mask_le (dilate (erode (morphologyEx once MORPH_CLOSE)))
                    (dilate (erode closed))).
    apply dilate_mono, erode_mono, Hco.
  - apply mask_le_trans with (morphologyEx once MORPH_OPEN).
    + rewrite Hoo. apply mask_le_refl.
    + simpl. apply dilate_mono, erode_mono.
      apply (close_extensive once Hob).
Qed.

(** Masks of the classifier are [uint8] masks. *)
Lemma classify_bounded (image : Image) (info : CategoryInfo) (tolerance : Z) :
  mask_bounded (classify image info tolerance).
Proof.
  intros y x v. unfold lookupZ.
  destruct ((0 <=? y) && (0 <=? x)); [|discriminate].
  unfold classify, inRange. rewrite pixel_at_grid_map.
  destruct (pixel_at image (Z.to_nat y) (Z.to_nat x)); simpl; [|discriminate].
  intros H. injection H as <-. unfold inRange_px.
  destruct (_ && _); lia.
Qed.

(** * Part III: further properties of the pipeline *)

(** ** Colour classifier *)

Lemma inRange_px_binary (lower upper p : RGB) :
  inRange_px lower upper p = 0 \/ inRange_px lower upper p = 255.
Proof. unfold inRange_px. destruct (_ && _); auto. Qed.

Lemma clamped_channel_widen (c v t t' : Z) :
  t <= t' ->
  Z.max 0 (c - t) <= v <= Z.min 255 (c + t) ->
  Z.max 0 (c - t') <= v <= Z.min 255 (c + t').
Proof. lia. Qed.

Lemma inRange_px_classify_mono (R p : RGB) (t t' : Z) :
  pixel_ok R -> tolerance_ok t -> tolerance_ok t' -> t <= t' ->
  inRange_px (lower_of R t) (upper_of R t) p
  <= inRange_px (lower_of R t') (upper_of R t') p.
Proof.
  intros HR Ht Ht' Hle.
  destruct (inRange_px_binary (lower_of R t) (upper_of R t) p) as [E | E];
    rewrite E.
  - destruct (inRange_px_binary (lower_of R t') (upper_of R t') p) as [E' | E'];
      rewrite E'; lia.
  - apply (inRange_px_classify _ _ _ HR Ht) in E.
    replace (inRange_px (lower_of R t') (upper_of R t') p) with 255; [lia|].
    symmetry. apply (inRange_px_classify _ _ _ HR Ht').
    destruct E as (Er & Eg & Eb).
    repeat split; now apply (clamped_channel_widen _ _ t t').
Qed.

Lemma lookupZ_classify (image : Image) (info : CategoryInfo) (t y x : Z) :
  lookupZ (classify image info t) y x
  = option_map
      (inRange_px (lower_of (info_color info) t) (upper_of (info_color info) t))
      (if (0 <=? y) && (0 <=? x)
       then pixel_at image (Z.to_nat y) (Z.to_nat x) else None).
Proof.
  unfold lookupZ, classify, inRange.
  destruct ((0 <=? y) && (0 <=? x)); [|reflexivity].
  apply pixel_at_grid_map.
Qed.

(** Raising the tolerance only adds pixels to a category's mask. *)
Lemma classify_mono (image : Image) (info : CategoryInfo) (t t' : Z) :
  pixel_ok (info_color info) -> tolerance_ok t -> tolerance_ok t' ->
  t <= t' -> mask_le (classify image info t) (classify image info t').
Proof.
  intros HR Ht Ht' H y x. rewrite !lookupZ_classify.
  destruct (if (0 <=? y) && (0 <=? x)
            then pixel_at image (Z.to_nat y) (Z.to_nat x) else None);
    simpl; [|exact I].
  now apply inRange_px_classify_mono.
Qed.

(** X1. For an 8-bit reference colour and tolerances between -(2^31 - 256)
    and 2^63 - 256, where no bound wraps, a pixel the classifier sets at
    one tolerance is set at every larger one, whatever the raster. *)
Theorem classifier_monotone_in_tolerance
    (image : Image) (info : CategoryInfo) (t t' : Z) (y x : nat) :
  pixel_ok (info_color info) ->
  tolerance_ok t -> tolerance_ok t' ->
  t <= t' ->
  pixel_at (classify image info t) y x = Some 255 ->
  pixel_at (classify image info t') y x = Some 255.
Proof.
  intros HR Hok Hok' Ht Hset.
  pose proof (classify_mono image info t t' HR Hok Hok' Ht
                            (Z.of_nat y) (Z.of_nat x)) as Hle.
  rewrite <- !pixel_at_lookupZ, Hset in Hle.
  destruct (pixel_at (classify image info t') y x) as [v|] eqn:E;
    simpl in Hle; [|contradiction].
  f_equal.
  unfold classify, inRange in E. rewrite pixel_at_grid_map in E.
  destruct (pixel_at image y x) as [p|]; simpl in E; [|discriminate].
  injection E as <-.
  destruct (inRange_px_binary (lower_of (info_color info) t')
                              (upper_of (info_color info) t') p) as [E | E];
    rewrite E in *; [lia | reflexivity].
Qed.

Lemma classifier_monotone_in_tolerance_witness :
  pixel_at (classify one_pixel_image red_info 60) 0 0 = Some 255.
Proof.
  apply (classifier_monotone_in_tolerance one_pixel_image red_info 50 60 0 0).
  - unfold pixel_ok; simpl; lia.
  - unfold tolerance_ok; lia.
  - unfold tolerance_ok; lia.
  - lia.
  - reflexivity.
Defined.

(** X2. For an 8-bit reference colour and a negative tolerance down to
    -(2^31 - 256), the classifier sets no pixel: the mask of the category
    is the blank mask of the raster's dimensions.  (Below that the lower
    bound leaves int32 and pixels can be set again.) *)
Theorem classifier_negative_tolerance_blank
    (image : Image) (info : CategoryInfo) (t : Z) :
  pixel_ok (info_color info) ->
  -2147483392 <= t < 0 ->
  classify image info t = grid_map (fun _ => 0) image.
Proof.
  intros HR Ht. unfold classify, inRange, grid_map.
  apply map_ext. intros row. apply map_ext. intros p.
  destruct (inRange_px_binary (lower_of (info_color info) t)
                              (upper_of (info_color info) t) p) as [E | E];
    [exact E|].
  exfalso.
  assert (Hok : tolerance_ok t) by (unfold tolerance_ok; lia).
  apply (inRange_px_classify _ _ _ HR Hok) in E.
  destruct E as (Er & _). lia.
Qed.

Lemma classifier_negative_tolerance_blank_witness :
  classify [[mkRGB 204 0 0; mkRGB 0 0 0]] red_info (-1) = [[0; 0]].
Proof.
  apply (classifier_negative_tolerance_blank
           [[mkRGB 204 0 0; mkRGB 0 0 0]] red_info (-1)).
  - unfold pixel_ok; simpl; lia.
  - lia.
Defined.

(** ** Morphology *)

Lemma mask_uint8_bounded (m : Mask) : mask_uint8 m = true -> mask_bounded m.
Proof.
  unfold mask_uint8. intros H y x v Hv.
  unfold lookupZ in Hv.
  destruct ((0 <=? y) && (0 <=? x)); [|discriminate].
  unfold pixel_at in Hv.
  destruct (nth_error m (Z.to_nat y)) as [row|] eqn:Er; [|discriminate].
  rewrite forallb_forall in H.
  pose proof (H row (nth_error_In _ _ Er)) as Hrow.
  rewrite forallb_forall in Hrow.
  pose proof (Hrow v (nth_error_In _ _ Hv)) as Hok.
  apply andb_true_iff in Hok. destruct Hok as [H0 H1].
  apply Z.leb_le in H0. apply Z.leb_le in H1. lia.
Qed.

Lemma shape_morphologyEx (m : Mask) (op : MorphOp) :
  shape (morphologyEx m op) = shape m.
Proof.
  destruct op; simpl;
    repeat (rewrite shape_dilate || rewrite shape_erode); reflexivity.
Qed.

Lemma shape_classify (image : Image) (info : CategoryInfo) (t : Z) :
  shape (classify image info t) = map (@List.length RGB) image.
Proof.
  unfold shape, classify, inRange, grid_map.
  rewrite map_map. apply map_ext. intros row. apply length_map.
Qed.

Lemma fold_max_binary (l : list Z) :
  (forall v, In v l -> v = 0 \/ v = 255) ->
  fold_right Z.max 0 l = 0 \/ fold_right Z.max 0 l = 255.
Proof.
  induction l as [|a l IH]; intros H; simpl; [now left|].
  destruct (H a (or_introl eq_refl)) as [-> | ->];
  destruct IH as [-> | ->]; try (intros v Hv; apply H; now right); lia.
Qed.

Lemma fold_min_binary (l : list Z) :
  (forall v, In v l -> v = 0 \/ v = 255) ->
  fold_right Z.min 255 l = 0 \/ fold_right Z.min 255 l = 255.
Proof.
  induction l as [|a l IH]; intros H; simpl; [now right|].
  destruct (H a (or_introl eq_refl)) as [-> | ->];
  destruct IH as [-> | ->]; try (intros v Hv; apply H; now right); lia.
Qed.

Lemma mask_binary_lookupZ (m : Mask) :
  mask_binary m <-> forall y x v, lookupZ m y x = Some v -> v = 0 \/ v = 255.
Proof.
  split; intros H y x v Hv.
  - unfold lookupZ in Hv.
    destruct ((0 <=? y) && (0 <=? x)); [|discriminate].
    exact (H _ _ _ Hv).
  - rewrite pixel_at_lookupZ in Hv. exact (H _ _ _ Hv).
Qed.

Lemma window_binary (m : Mask) (y x : Z) :
  mask_binary m -> forall v, In v (window m y x) -> v = 0 \/ v = 255.
Proof.
  intros H v Hv. apply in_window in Hv.
  destruct Hv as (dy & dx & _ & _ & Hv).
  exact (proj1 (mask_binary_lookupZ m) H _ _ _ Hv).
Qed.

Lemma dilate_binary (m : Mask) : mask_binary m -> mask_binary (dilate m).
Proof.
  intros H. apply mask_binary_lookupZ. intros y x v.
  rewrite lookupZ_dilate.
  destruct (lookupZ m y x); simpl; [|discriminate].
  intros E. injection E as <-.
  apply fold_max_binary. now apply window_binary.
Qed.

Lemma erode_binary (m : Mask) : mask_binary m -> mask_binary (erode m).
Proof.
  intros H. apply mask_binary_lookupZ. intros y x v.
  rewrite lookupZ_erode.
  destruct (lookupZ m y x); simpl; [|discriminate].
  intros E. injection E as <-.
  apply fold_min_binary. now apply window_binary.
Qed.

Lemma classify_binary (image : Image) (info : CategoryInfo) (t : Z) :
  mask_binary (classify image info t).
Proof.
  intros y x v. unfold classify, inRange. rewrite pixel_at_grid_map.
  destruct (pixel_at image y x); simpl; [|discriminate].
  intros E. injection E as <-. apply inRange_px_binary.
Qed.

(** X3. Classifying, closing and opening keep the dimensions of the raster
    and produce binary masks: the mask handed to the contour tracer has the
    row lengths of the image, and each of its pixels is 0 or 255. *)
Theorem cleaned_mask_dimensions_and_values
    (image : Image) (info : CategoryInfo) (t : Z) :
  shape (close_then_open (classify image info t))
  = map (@List.length RGB) image /\
  mask_binary (close_then_open (classify image info t)).
Proof.
  unfold close_then_open. split.
  - rewrite !shape_morphologyEx. apply shape_classify.
  - simpl. apply dilate_binary, erode_binary, erode_binary, dilate_binary.
    apply classify_binary.
Qed.

(** X4. Closing followed by opening is idempotent: applied to its own
    result, the morphological part of the cleaner changes nothing, on every
    [uint8] mask. *)
Theorem close_then_open_idempotent (m : Mask) :
  mask_uint8 m = true ->
  close_then_open (close_then_open m) = close_then_open m.
Proof.
  intros H. apply (open_after_close_idempotent m).
  now apply mask_uint8_bounded.
Qed.

Lemma close_then_open_idempotent_witness :
  close_then_open (close_then_open (solid_mask 12))
  = close_then_open (solid_mask 12).
Proof.
  apply (close_then_open_idempotent (solid_mask 12)). reflexivity.
Defined.

(** X5. Closing never lowers a pixel and opening never raises one: a set
    pixel stays set through [MORPH_CLOSE], a clear pixel stays clear
    through [MORPH_OPEN]. *)
Theorem closing_adds_opening_removes (m : Mask) :
  mask_uint8 m = true ->
  mask_le m (morphologyEx m MORPH_CLOSE) /\
  mask_le (morphologyEx m MORPH_OPEN) m.
Proof.
  intros H. apply mask_uint8_bounded in H. split.
  - now apply close_extensive.
  - now apply open_anti_extensive.
Qed.

Lemma closing_adds_opening_removes_witness :
  mask_le dot_mask (morphologyEx dot_mask MORPH_CLOSE) /\
  mask_le (morphologyEx dot_mask MORPH_OPEN) dot_mask.
Proof.
  apply (closing_adds_opening_removes dot_mask). reflexivity.
Defined.

(** An isolated pixel survives closing and is removed by opening. *)
Example dot_is_removed_by_opening :
  morphologyEx dot_mask MORPH_CLOSE = dot_mask /\
  morphologyEx dot_mask MORPH_OPEN = zeros_like dot_mask.
Proof. split; vm_compute; reflexivity. Qed.

Lemma morphologyEx_mono (a b : Mask) (op : MorphOp) :
  mask_le a b -> mask_le (morphologyEx a op) (morphologyEx b op).
Proof.
  intros H. destruct op; simpl.
  - apply erode_mono, dilate_mono, H.
  - apply dilate_mono, erode_mono, H.
Qed.

(** X6. For an 8-bit reference colour and tolerances between
    -(2^31 - 256) and 2^63 - 256, raising the tolerance can only enlarge
    what the morphological clean-up returns: pixel by pixel, the closed and
    opened mask of a category at tolerance [t] lies below the one at any
    larger tolerance. *)
Theorem tolerance_monotone_through_morphology
    (image : Image) (info : CategoryInfo) (t t' : Z) :
  pixel_ok (info_color info) ->
  tolerance_ok t -> tolerance_ok t' ->
  t <= t' ->
  mask_le (close_then_open (classify image info t))
          (close_then_open (classify image info t')).
Proof.
  intros HR Hok Hok' H. unfold close_then_open.
  now apply morphologyEx_mono, morphologyEx_mono, classify_mono.
Qed.

Lemma tolerance_monotone_through_morphology_witness :
  mask_le (close_then_open (classify off_red_image red_info 5))
          (close_then_open (classify off_red_image red_info 50)).
Proof.
  apply (tolerance_monotone_through_morphology off_red_image red_info 5 50).
  - unfold pixel_ok; simpl; lia.
  - unfold tolerance_ok; lia.
  - unfold tolerance_ok; lia.
  - lia.
Defined.

(** At tolerance 5 the mask of that raster is blank, at 50 it is set
    throughout. *)
Example tolerance_changes_the_cleaned_mask :
  close_then_open (classify off_red_image red_info 5) = blank_mask 12 /\
  close_then_open (classify off_red_image red_info 50) = solid_mask 12.
Proof. split; vm_compute; reflexivity. Qed.

(** ** The colour table *)

Lemma dict_get_absent {V : Type} (d : list (string * V)) (k : string) :
  ~ In k (map fst d) -> dict_get d k = None.
Proof.
  unfold dict_get. induction d as [|[k' v] d IH]; intros H; [reflexivity|].
  simpl. destruct (String.eqb k' k) eqn:E.
  - apply String.eqb_eq in E. exfalso. apply H. now left.
  - apply IH. intros Hin. apply H. now right.
Qed.

Lemma dict_get_present {V : Type} (d : list (string * V)) (k : string) (v : V) :
  NoDup (map fst d) -> In (k, v) d -> dict_get d k = Some v.
Proof.
  unfold dict_get. induction d as [|[k' v'] d IH]; intros Hnd Hin; [destruct Hin|].
  simpl in *. inversion Hnd as [|? ? Hnotin Hnd']; subst.
  destruct Hin as [E | Hin].
  - injection E as -> ->. now rewrite String.eqb_refl.
  - destruct (String.eqb k' k) eqn:E.
    + apply String.eqb_eq in E. subst k'. exfalso. apply Hnotin.
      apply in_map_iff. now exists (k, v).
    + now apply IH.
Qed.

Lemma color_map_keys_distinct : NoDup (map fst color_map).
Proof.
  simpl. repeat constructor; simpl; intuition discriminate.
Qed.

(** X7. The hex colour of a category is the entry of the fixed table when
    the name is one of its five keys, and white, [#FFFFFF], for every other
    name; no name makes the lookup fail. *)
Theorem mask_category_to_hex_lookup (category : string) :
  (forall h, In (category, h) color_map -> mask_category_to_hex category = h) /\
  (~ In category (map fst color_map) ->
   mask_category_to_hex category = "#FFFFFF"%string).
Proof.
  unfold mask_category_to_hex. split.
  - intros h Hin.
    now rewrite (dict_get_present _ _ _ color_map_keys_distinct Hin).
  - intros H. now rewrite (dict_get_absent _ _ H).
Qed.

Lemma mask_category_to_hex_lookup_witness :
  mask_category_to_hex "25-49 Mbps" = "#FFFF00"%string /\
  mask_category_to_hex "25-49 mbps" = "#FFFFFF"%string.
Proof.
  split.
  - apply (proj1 (mask_category_to_hex_lookup "25-49 Mbps")).
    simpl. tauto.
  - apply (proj2 (mask_category_to_hex_lookup "25-49 mbps")).
    simpl. intuition discriminate.
Defined.

(** ** Contour vectorizer *)

Lemma two_valued_not_three_distinct (p q : Point) (r : Ring) :
  (forall v, In v r -> pt_eq v p \/ pt_eq v q) -> ~ three_distinct r.
Proof.
  intros H (a & b & c & Ha & Hb & Hc & Hab & Hac & Hbc).
  destruct (H a Ha) as [Ea | Ea], (H b Hb) as [Eb | Eb], (H c Hc) as [Ec | Ec];
    eauto using pt_eq_sym, pt_eq_trans.
Qed.

(** A closed ring with three distinct vertices has four coordinates at
    least: the first is repeated at the end. *)
Lemma closed_three_distinct_length (r : Ring) :
  ring_closed r -> three_distinct r -> (4 <= List.length r)%nat.
Proof.
  intros Hc Hd.
  destruct r as [|a [|b [|c [|d r]]]]; simpl; try lia; exfalso.
  - destruct Hd as (x & _ & _ & [] & _).
  - apply (two_valued_not_three_distinct a a [a]); [|exact Hd].
    intros v [<- | []]. left. apply pt_eq_refl.
  - apply (two_valued_not_three_distinct a b [a; b]); [|exact Hd].
    intros v [<- | [<- | []]]; [left | right]; apply pt_eq_refl.
  - apply (two_valued_not_three_distinct a b [a; b; c]); [|exact Hd].
    simpl in Hc.
    intros v [<- | [<- | [<- | []]]].
    + left. apply pt_eq_refl.
    + right. apply pt_eq_refl.
    + left. now apply pt_eq_sym.
Qed.

Lemma emit_length {A : Type} (o : option A) : (List.length (emit o) <= 1)%nat.
Proof. destruct o; simpl; lia. Qed.

Section VectorizerFurther.

Context {cv : OpenCV} {geos : Shapely}.

Lemma polygons_of_mask_length
    (category : string) (width height : Z) (mask : Mask) :
  (List.length (polygons_of_mask category width height mask)
   <= List.length (findContours mask))%nat.
Proof.
  unfold polygons_of_mask.
  induction (findContours mask) as [|contour contours IH]; simpl; [lia|].
  rewrite length_app.
  pose proof (emit_length (contour_to_record category width height contour)).
  lia.
Qed.

(** X8. The vectorizer emits at most one polygon per traced contour, and
    every record it emits is tagged with the category of one of the masks
    it was given and coloured by the fixed table for that category. *)
Theorem vectorizer_records_come_from_contours
    (masks : list (string * Mask)) (image_shape : Z * Z) :
  (List.length (masks_to_polygons masks image_shape)
   <= List.length (flat_map (fun km => findContours (snd km)) masks))%nat /\
  Forall (fun rec =>
            In (speed_category rec) (map fst masks) /\
            color rec = mask_category_to_hex (speed_category rec))
         (masks_to_polygons masks image_shape).
Proof.
  destruct image_shape as [height width]. split.
  - unfold masks_to_polygons.
    induction masks as [|[category mask] masks IH]; simpl; [lia|].
    rewrite !length_app.
    pose proof (polygons_of_mask_length category width height mask). lia.
  - apply Forall_forall. intros rec Hrec.
    apply in_masks_to_polygons in Hrec.
    destruct Hrec as (category & mask & contour & Hin & _ & Hr).
    apply contour_to_record_Some in Hr.
    destruct Hr as (_ & _ & _ & _ & ->). simpl. split; [|reflexivity].
    apply in_map_iff. now exists (category, mask).
Qed.

(** X9. The exterior of every polygon the vectorizer emits is a closed ring
    of at least four coordinates: it ends on its first vertex, and between
    the two it holds the three distinct vertices that span its area. *)
Theorem vectorizer_exteriors_are_closed_rings
    (masks : list (string * Mask)) (image_shape : Z * Z) :
  Forall (fun rec =>
            ring_closed (exterior (geometry rec)) /\
            (4 <= List.length (exterior (geometry rec)))%nat /\
            interiors (geometry rec) = [])
         (masks_to_polygons masks image_shape).
Proof.
  destruct image_shape as [height width].
  apply Forall_forall. intros rec Hrec.
  apply in_masks_to_polygons in Hrec.
  destruct Hrec as (category & mask & contour & _ & _ & Hr).
  apply contour_to_record_Some in Hr.
  destruct Hr as (_ & _ & _ & Harea & ->). simpl.
  assert (Hc : ring_closed
                 (close_ring (map (normalize width height) (simplified contour))))
    by apply close_ring_closed.
  split; [exact Hc|]. split; [|reflexivity].
  apply closed_three_distinct_length; [exact Hc|].
  exact (positive_area_three_distinct _ Harea).
Qed.

End VectorizerFurther.

(** ** Georeferencer *)















(** ** Category merger *)

Lemma flat_map_nil_iff {A B : Type} (f : A -> list B) (l : list A) :
  flat_map f l = [] <-> forall a, In a l -> f a = [].
Proof.
  induction l as [|a l IH]; simpl.
  - split; [intros _ b [] | reflexivity].
  - split.
    + intros H. apply app_eq_nil in H. destruct H as [Ha Hl].
      intros b [<- | Hb]; [exact Ha | now apply IH].
    + intros H. rewrite (H a (or_introl eq_refl)). simpl.
      apply IH. intros b Hb. apply H. now right.
Qed.

Lemma filter_by_key (category : string) (polygons : list PolyRecord) :
  map geometry (filter (same_category category) polygons)
  = map fst (filter (fun k => String.eqb (snd k) category)
                    (map merge_key polygons)).
Proof.
  induction polygons as [|r polygons IH]; simpl; [reflexivity|].
  unfold same_category at 1.
  destruct (String.eqb (speed_category r) category); simpl; now rewrite IH.
Qed.

Lemma categories_by_key (polygons : list PolyRecord) :
  map speed_category polygons = map snd (map merge_key polygons).
Proof. rewrite map_map. reflexivity. Qed.

Section MergerFurther.

Context {geos : Shapely}.

(** What a category contributes depends on the geometries of its group
    only. *)
Lemma merge_category_by_geometries (gdf : list PolyRecord) (category : string) :
  merge_category gdf category
  = let geometries := map geometry (filter (same_category category) gdf) in
    if (0 <? List.length geometries)%nat then
      map (fun poly => mkRecord poly category (mask_category_to_hex category))
          (geoms_of (unary_union geometries))
    else [].
Proof.
  unfold merge_category. cbv zeta. rewrite length_map.
  destruct (0 <? List.length (filter (same_category category) gdf))%nat;
    [|reflexivity].
  destruct (unary_union _); reflexivity.
Qed.

Lemma create_geojson_Some (polygons final_gdf : list PolyRecord) :
  create_geojson polygons = Some final_gdf ->
  final_gdf <> [] /\
  forall r, In r final_gdf ->
    In (speed_category r) (map speed_category polygons) /\
    color r = mask_category_to_hex (speed_category r).
Proof.
  unfold create_geojson.
  destruct polygons as [|r0 polygons']; [discriminate|].
  set (polygons := r0 :: polygons'). simpl GeoDataFrame. cbv iota.
  destruct (flat_map (merge_category polygons) (categories_of polygons))
    as [|m merged] eqn:E; [discriminate|].
  simpl GeoDataFrame. cbv iota. intros H. injection H as <-.
  split; [discriminate|].
  intros r Hr.
  change (In r (map simplify_row (m :: merged))) in Hr.
  apply in_map_iff in Hr. destruct Hr as (r1 & <- & Hr1).
  rewrite <- E in Hr1. apply in_flat_map in Hr1.
  destruct Hr1 as (category & Hcat & Hr1).
  destruct (merge_category_tag _ _ _ Hr1) as [Ht Hc].
  simpl. rewrite Ht. split; [|exact Hc].
  unfold categories_of in Hcat. now apply nodup_In in Hcat.
Qed.

(** X15. The merger has rows to write exactly when the union of some
    category contains a polygon; when none does, and in particular on an
    empty input, building the frame fails and nothing is returned. *)
Theorem create_geojson_fails_iff (polygons : list PolyRecord) :
  create_geojson polygons = None <->
  forall category,
    In category (map speed_category polygons) ->
    geoms_of (unary_union
                (map geometry (filter (same_category category) polygons)))
    = [].
Proof.
  unfold create_geojson.
  destruct polygons as [|r0 polygons'];
    [split; [intros _ category [] | reflexivity]|].
  set (polygons := r0 :: polygons'). simpl GeoDataFrame. cbv iota.
  assert (Hnil : flat_map (merge_category polygons) (categories_of polygons) = []
                 <-> forall category,
                      In category (map speed_category polygons) ->
                      geoms_of (unary_union
                                  (map geometry
                                       (filter (same_category category) polygons)))
                      = []).
  { rewrite flat_map_nil_iff. split; intros H category Hin.
    - assert (Hc : In category (categories_of polygons))
        by (unfold categories_of; now apply nodup_In).
      specialize (H category Hc).
      rewrite (merge_category_present _ _ Hin) in H.
      now apply map_eq_nil in H.
    - unfold categories_of in Hin. apply nodup_In in Hin.
      rewrite (merge_category_present _ _ Hin), (H category Hin). reflexivity. }
  rewrite <- Hnil.
  destruct (flat_map (merge_category polygons) (categories_of polygons));
    simpl; split; congruence.
Qed.

(** X16. The merger does not read the colour of the records it is given:
    two inputs with the same geometries and categories, in the same order,
    give the same result, whatever their colours. *)
Theorem create_geojson_ignores_input_color (polygons polygons' : list PolyRecord) :
  map merge_key polygons = map merge_key polygons' ->
  create_geojson polygons = create_geojson polygons'.
Proof.
  intros H.
  assert (Hcat : categories_of polygons = categories_of polygons').
  { unfold categories_of. now rewrite !categories_by_key, H. }
  assert (Hmerge : forall category,
             merge_category polygons category = merge_category polygons' category).
  { intros category. rewrite !merge_category_by_geometries.
    now rewrite !filter_by_key, H. }
  unfold create_geojson.
  destruct polygons as [|r polygons], polygons' as [|r' polygons'];
    try discriminate; [reflexivity|].
  simpl GeoDataFrame. cbv iota.
  rewrite Hcat.
  rewrite (flat_map_ext _ _ Hmerge). reflexivity.
Qed.

End MergerFurther.

Lemma create_geojson_ignores_input_color_witness :
  @create_geojson disjoint_geos [red_square]
  = @create_geojson disjoint_geos [red_square_blue].
Proof.
  apply (@create_geojson_ignores_input_color disjoint_geos
           [red_square] [red_square_blue]).
  reflexivity.
Defined.

(** On no input, and on an input whose union has no polygon part, nothing is
    returned; on a square, one row is. *)
Example create_geojson_on_small_inputs :
  @create_geojson disjoint_geos [] = None /\
  @create_geojson disjoint_geos [red_square]
  = Some [mkRecord unit_square "0-9 Mbps" "#FF0000"].
Proof. split; reflexivity. Qed.

(** ** The run *)

Lemma georeference_polygons_categories (polygons : list PolyRecord) (bbox : BBox) :
  map speed_category (georeference_polygons polygons bbox)
  = map speed_category polygons.
Proof. unfold georeference_polygons. rewrite map_map. reflexivity. Qed.

Section RunFurther.

Context {cv : OpenCV} {geos : Shapely}.

Lemma detect_broadband_regions_keys
    (image : Image) (color_config : ColorConfig) (tolerance : Z) :
  map fst (detect_broadband_regions image color_config tolerance)
  = map fst color_config.
Proof.
  unfold detect_broadband_regions. rewrite map_map.
  apply map_ext. intros [category info]. reflexivity.
Qed.

Lemma masks_to_polygons_category
    (masks : list (string * Mask)) (image_shape : Z * Z) (rec : PolyRecord) :
  In rec (masks_to_polygons masks image_shape) ->
  In (speed_category rec) (map fst masks).
Proof.
  destruct image_shape as [height width]. intros Hrec.
  apply in_masks_to_polygons in Hrec.
  destruct Hrec as (category & mask & contour & Hin & _ & Hr).
  apply contour_to_record_Some in Hr.
  destruct Hr as (_ & _ & _ & _ & ->). simpl.
  apply in_map_iff. now exists (category, mask).
Qed.

(** X17. What [main] saves is never empty, and every record of it is tagged
    with a category name of the colour configuration and coloured by the
    fixed table for that name. *)
Theorem main_saves_tagged_records
    (image : Image) (color_config : ColorConfig) (tolerance : Z)
    (gdf : list PolyRecord) :
  main image color_config tolerance = Saved gdf ->
  gdf <> [] /\
  Forall (fun r =>
            In (speed_category r) (map fst color_config) /\
            color r = mask_category_to_hex (speed_category r))
         gdf.
Proof.
  unfold main.
  set (masks := detect_broadband_regions image color_config tolerance).
  set (polygons := masks_to_polygons masks (shape_of image)).
  intros H.
  destruct polygons as [|p0 polygons'] eqn:Ep; [discriminate|].
  rewrite <- Ep in H.
  destruct (create_geojson (georeference_polygons polygons CLEVELAND_BBOX))
    as [final|] eqn:Ec; [|discriminate].
  injection H as <-.
  destruct (create_geojson_Some _ _ Ec) as [Hne Hrec].
  split; [exact Hne|].
  apply Forall_forall. intros r Hr.
  destruct (Hrec r Hr) as [Hcat Hcol]. split; [|exact Hcol].
  rewrite georeference_polygons_categories in Hcat.
  apply in_map_iff in Hcat. destruct Hcat as (rec & <- & Hin).
  rewrite <- (detect_broadband_regions_keys image color_config tolerance).
  fold masks. apply (masks_to_polygons_category masks (shape_of image)).
  exact Hin.
Qed.

Lemma detect_broadband_regions_by_key
    (image : Image) (color_config : ColorConfig) (tolerance : Z) :
  detect_broadband_regions image color_config tolerance
  = map (fun key =>
           (fst key,
            clean (inRange image (lower_of (snd key) tolerance)
                                 (upper_of (snd key) tolerance))))
        (map config_key color_config).
Proof.
  unfold detect_broadband_regions. rewrite map_map.
  apply map_ext. intros [category info]. reflexivity.
Qed.

(** X18. [main] reads the category names and reference colours of the
    configuration and nothing else: two configurations that agree on
    those, whatever their display colours, give the same outcome. *)
Theorem main_ignores_display_colors
    (image : Image) (color_config color_config' : ColorConfig) (tolerance : Z) :
  map config_key color_config = map config_key color_config' ->
  main image color_config tolerance = main image color_config' tolerance.
Proof.
  intros H. unfold main.
  now rewrite !detect_broadband_regions_by_key, H.
Qed.

End RunFurther.

Lemma main_saves_tagged_records_witness :
  exists gdf,
    @main solid_cv disjoint_geos red_image default_color_config 50 = Saved gdf /\
    gdf <> [] /\
    Forall (fun r =>
              In (speed_category r) (map fst default_color_config) /\
              color r = mask_category_to_hex (speed_category r))
           gdf.
Proof.
  destruct (@main solid_cv disjoint_geos red_image default_color_config 50)
    as [|gdf|] eqn:E; try (vm_compute in E; discriminate).
  exists gdf. split; [reflexivity|].
  apply (@main_saves_tagged_records solid_cv disjoint_geos
           red_image default_color_config 50 gdf E).
Defined.

Lemma main_ignores_display_colors_witness :
  @main solid_cv disjoint_geos red_image default_color_config 50
  = @main solid_cv disjoint_geos red_image recolored_config 50.
Proof.
  apply (@main_ignores_display_colors solid_cv disjoint_geos
           red_image default_color_config recolored_config 50).
  reflexivity.
Defined.

(** ** Normalised coordinates *)

Lemma inject_Z_pos (n : Z) : 0 < n -> (0 < inject_Z n)%Q.
Proof. intros H. change 0%Q with (inject_Z 0). now rewrite <- Zlt_Qlt. Qed.

(** X19. Two different pixels have different normalised positions: dividing
    by the width and the height of the image merges no two vertices. *)
Theorem normalize_separates_pixels (width height : Z) (p q : Z * Z) :
  0 < width -> 0 < height ->
  p <> q ->
  ~ pt_eq (normalize width height p) (normalize width height q).
Proof.
  intros Hw Hh Hne [Ex Ey]. apply Hne.
  pose proof (inject_Z_pos width Hw) as Hqw.
  pose proof (inject_Z_pos height Hh) as Hqh.
  destruct p as [px py], q as [qx qy].
  unfold normalize in Ex, Ey. simpl in Ex, Ey.
  assert (Hpx : (inject_Z px == inject_Z qx)%Q).
  { apply (Qmult_inj_r _ _ (/ inject_Z width)); [|exact Ex].
    intros H0. apply (Qlt_irrefl 0).
    rewrite <- H0 at 2. now apply Qinv_lt_0_compat. }
  assert (Hpy : (inject_Z py == inject_Z qy)%Q).
  { apply (Qmult_inj_r _ _ (/ inject_Z height)); [|exact Ey].
    intros H0. apply (Qlt_irrefl 0).
    rewrite <- H0 at 2. now apply Qinv_lt_0_compat. }
  apply (proj1 (inject_Z_injective _ _)) in Hpx.
  apply (proj1 (inject_Z_injective _ _)) in Hpy.
  congruence.
Qed.

Lemma normalize_separates_pixels_witness :
  ~ pt_eq (normalize 22 22 (15, 3)%Z) (normalize 22 22 (14, 3)%Z).
Proof.
  apply (normalize_separates_pixels 22 22 (15, 3) (14, 3)); try lia.
  discriminate.
Defined.

Section VectorizerInBox.

Context {cv : OpenCV} {geos : Shapely}.


End VectorizerInBox.


(** ** Morphology on uniform masks and one operation at a time *)

(** X21. Each morphological operation of the cleaner is idempotent on its
    own: closing a closed mask, or opening an opened one, changes
    nothing. *)
Theorem morphologyEx_idempotent (m : Mask) (op : MorphOp) :
  mask_uint8 m = true ->
  morphologyEx (morphologyEx m op) op = morphologyEx m op.
Proof.
  intros H. apply mask_uint8_bounded in H.
  destruct op; simpl.
  - now rewrite dilate_erode_dilate.
  - now rewrite erode_dilate_erode.
Qed.

Lemma morphologyEx_idempotent_witness :
  morphologyEx (morphologyEx dot_mask MORPH_OPEN) MORPH_OPEN
  = morphologyEx dot_mask MORPH_OPEN.
Proof.
  apply (morphologyEx_idempotent dot_mask MORPH_OPEN). reflexivity.
Defined.

Lemma mask_uniform_lookupZ (c : Z) (m : Mask) (y x v : Z) :
  mask_uniform c m = true -> lookupZ m y x = Some v -> v = c.
Proof.
  unfold mask_uniform, lookupZ, pixel_at. intros H Hv.
  destruct ((0 <=? y) && (0 <=? x)); [|discriminate].
  destruct (nth_error m (Z.to_nat y)) as [row|] eqn:Er; [|discriminate].
  rewrite forallb_forall in H.
  pose proof (H row (nth_error_In _ _ Er)) as Hrow.
  rewrite forallb_forall in Hrow.
  pose proof (Hrow v (nth_error_In _ _ Hv)) as Hok.
  apply Z.eqb_eq in Hok. congruence.
Qed.

Lemma window_centre (m : Mask) (y x a : Z) :
  lookupZ m y x = Some a -> In a (window m y x).
Proof.
  intros H. apply in_window. exists 0, 0.
  rewrite !Z.add_0_r. unfold kernel_offsets. simpl. tauto.
Qed.

Lemma window_uniform (c : Z) (m : Mask) (y x v : Z) :
  mask_uniform c m = true -> In v (window m y x) -> v = c.
Proof.
  intros H Hv. apply in_window in Hv.
  destruct Hv as (dy & dx & _ & _ & Hv).
  exact (mask_uniform_lookupZ c m _ _ v H Hv).
Qed.

Lemma dilate_uniform (c : Z) (m : Mask) :
  0 <= c -> mask_uniform c m = true -> dilate m = m.
Proof.
  intros Hc H. apply grid_ext; [apply shape_dilate|].
  intros y x. rewrite !pixel_at_lookupZ, lookupZ_dilate.
  destruct (lookupZ m (Z.of_nat y) (Z.of_nat x)) as [v|] eqn:E; [|reflexivity].
  simpl. f_equal.
  pose proof (mask_uniform_lookupZ c m _ _ v H E) as ->.
  apply Z.le_antisymm.
  - apply fold_max_le. split; [exact Hc|].
    intros w Hw. rewrite (window_uniform c m _ _ w H Hw). lia.
  - apply fold_max_ub. now apply window_centre.
Qed.

Lemma erode_uniform (c : Z) (m : Mask) :
  c <= 255 -> mask_uniform c m = true -> erode m = m.
Proof.
  intros Hc H. apply grid_ext; [apply shape_erode|].
  intros y x. rewrite !pixel_at_lookupZ, lookupZ_erode.
  destruct (lookupZ m (Z.of_nat y) (Z.of_nat x)) as [v|] eqn:E; [|reflexivity].
  simpl. f_equal.
  pose proof (mask_uniform_lookupZ c m _ _ v H E) as ->.
  apply Z.le_antisymm.
  - apply fold_min_lb. now apply window_centre.
  - apply fold_min_ge. split; [exact Hc|].
    intros w Hw. rewrite (window_uniform c m _ _ w H Hw). lia.
Qed.

(** X22. A mask that is blank, or set throughout, passes through closing
    and through opening unchanged, whatever its size: nothing is created
    from nothing, and a region that fills the image is not eaten away at the
    image border. *)
Theorem uniform_mask_is_fixed (m : Mask) (op : MorphOp) :
  mask_uniform 0 m = true \/ mask_uniform 255 m = true ->
  morphologyEx m op = m.
Proof.
  intros [H | H]; destruct op; simpl.
  - rewrite (dilate_uniform 0 m) by (lia || exact H).
    apply (erode_uniform 0 m); [lia | exact H].
  - rewrite (erode_uniform 0 m) by (lia || exact H).
    apply (dilate_uniform 0 m); [lia | exact H].
  - rewrite (dilate_uniform 255 m) by (lia || exact H).
    apply (erode_uniform 255 m); [lia | exact H].
  - rewrite (erode_uniform 255 m) by (lia || exact H).
    apply (dilate_uniform 255 m); [lia | exact H].
Qed.

Lemma uniform_mask_is_fixed_witness :
  morphologyEx (solid_mask 3) MORPH_OPEN = solid_mask 3.
Proof.
  apply (uniform_mask_is_fixed (solid_mask 3) MORPH_OPEN).
  right. reflexivity.
Defined.

(** ** The georeferencer on binary64 floats *)

Section Binary64Facts.

Import Floats.
#[local] Set Warnings "-inexact-float".
#[local] Open Scope float_scope.

Lemma finite_cases (x : float) :
  is_finite x = true ->
  (exists s, Prim2SF x = S754_zero s) \/
  (exists s m e, Prim2SF x = S754_finite s m e).
Proof.
  unfold is_finite, is_nan, is_infinity.
  rewrite !FloatAxioms.eqb_spec, FloatAxioms.abs_spec.
  destruct (Prim2SF x) as [s | s | | s m e] eqn:E; simpl.
  - intros _. left. now exists s.
  - destruct s; vm_compute; discriminate.
  - vm_compute. discriminate.
  - intros _. right. now exists s, m, e.
Qed.

Lemma SFeqb_refl_finite (x : spec_float) :
  (exists s, x = S754_zero s) \/ (exists s m e, x = S754_finite s m e) ->
  SFeqb x x = true.
Proof.
  intros [(s & ->) | (s & m & e & ->)]; unfold SFeqb; simpl; [reflexivity|].
  rewrite Z.compare_refl.
  change (Pos.compare_cont Eq m m) with (Pos.compare m m).
  rewrite Pos.compare_refl. destruct s; reflexivity.
Qed.

(** Zero times a finite number is a zero, of either sign. *)
Lemma mul_zero_finite (d : float) :
  is_finite d = true -> exists s, Prim2SF (0 * d) = S754_zero s.
Proof.
  intros H. rewrite FloatAxioms.mul_spec.
  change (Prim2SF 0) with (S754_zero false).
  destruct (finite_cases d H) as [(s & ->) | (s & m & e & ->)]; simpl; eauto.
Qed.

(** Adding a zero to a finite number, or subtracting one, gives a number
    equal to it. *)
Lemma add_zero_eqb (w z : float) (s : bool) :
  is_finite w = true -> Prim2SF z = S754_zero s -> (w + z =? w) = true.
Proof.
  intros Hw Hz.
  rewrite FloatAxioms.eqb_spec, FloatAxioms.add_spec, Hz.
  destruct (finite_cases w Hw) as [(sw & E) | (sw & m & e & E)]; rewrite E.
  - destruct sw, s; reflexivity.
  - simpl. apply SFeqb_refl_finite. right. now exists sw, m, e.
Qed.

Lemma sub_zero_eqb (w z : float) (s : bool) :
  is_finite w = true -> Prim2SF z = S754_zero s -> (w - z =? w) = true.
Proof.
  intros Hw Hz.
  rewrite FloatAxioms.eqb_spec, FloatAxioms.sub_spec, Hz.
  destruct (finite_cases w Hw) as [(sw & E) | (sw & m & e & E)]; rewrite E.
  - destruct sw, s; reflexivity.
  - simpl. apply SFeqb_refl_finite. right. now exists sw, m, e.
Qed.

(** C2, as the specification has it, fails on the floats the code computes
    with: with the Cleveland box (0.5, 0.5) goes to latitude
    41.495000000000005, not 41.495; and with west = -2.0, east = -0.9 the
    corner x = 1 goes to longitude -0.8999999999999999, not to east. *)
Lemma georeferencer_rounds_in_binary64 :
  snd (Binary64.geo_point Binary64.CLEVELAND_BBOX (0.5, 0.5))
  = 41.495000000000005 /\
  (snd (Binary64.geo_point Binary64.CLEVELAND_BBOX (0.5, 0.5)) =? 41.495)
  = false /\
  fst (Binary64.geo_point Binary64.uneven_bbox (1, 1)) = -0.8999999999999999 /\
  (fst (Binary64.geo_point Binary64.uneven_bbox (1, 1))
   =? Binary64.east Binary64.uneven_bbox) = false /\
  (Binary64.west Binary64.uneven_bbox <? Binary64.east Binary64.uneven_bbox)
  = true /\
  (Binary64.south Binary64.uneven_bbox <? Binary64.north Binary64.uneven_bbox)
  = true.
Proof. repeat split; vm_compute; reflexivity. Qed.

(** C2, amended.  For every bounding box and vertex (x, y) the georeferencer
    yields, at the vertex's place, lon = west + x*(east-west) and
    lat = north - y*(north-south) computed in binary64, each operation
    rounded; (0,0) goes to (west, north) whenever west, north and the two
    extents are finite; (1,1) goes to (east, south), and (0.5, 0.5) to the
    midpoint, up to rounding only: exactly so for (1,1) with the Cleveland
    box, for which (0.5, 0.5) goes to longitude -81.685 and to latitude
    41.495000000000005, the double next above 41.495. *)
Theorem georeferencer_binary64
    (bbox : Binary64.BBox) (coords : list (float * float)) (k : nat)
    (x y : float) :
  nth_error coords k = Some (x, y) ->
  is_finite (Binary64.west bbox) = true ->
  is_finite (Binary64.north bbox) = true ->
  is_finite (Binary64.east bbox - Binary64.west bbox) = true ->
  is_finite (Binary64.north bbox - Binary64.south bbox) = true ->
  nth_error (Binary64.geo_coords bbox coords) k
  = Some (Binary64.west bbox + x * (Binary64.east bbox - Binary64.west bbox),
          Binary64.north bbox - y * (Binary64.north bbox - Binary64.south bbox)) /\
  (fst (Binary64.geo_point bbox (0, 0)) =? Binary64.west bbox) = true /\
  (snd (Binary64.geo_point bbox (0, 0)) =? Binary64.north bbox) = true /\
  Binary64.geo_point Binary64.CLEVELAND_BBOX (1, 1)
  = (Binary64.east Binary64.CLEVELAND_BBOX,
     Binary64.south Binary64.CLEVELAND_BBOX) /\
  Binary64.geo_point Binary64.CLEVELAND_BBOX (0.5, 0.5)
  = (-81.685, next_up 41.495) /\
  next_up 41.495 = 41.495000000000005.
Proof.
  intros Hk Hw Hn Hdx Hdy.
  split; [|split; [|split; [|repeat split; vm_compute; reflexivity]]].
  - unfold Binary64.geo_coords. rewrite nth_error_map, Hk. reflexivity.
  - cbn [Binary64.geo_point fst].
    destruct (mul_zero_finite _ Hdx) as (s & Hs).
    exact (add_zero_eqb _ _ s Hw Hs).
  - cbn [Binary64.geo_point snd].
    destruct (mul_zero_finite _ Hdy) as (s & Hs).
    exact (sub_zero_eqb _ _ s Hn Hs).
Qed.

Lemma georeferencer_binary64_witness :
  nth_error (Binary64.geo_coords Binary64.CLEVELAND_BBOX [(0, 0); (0.5, 0.5)]) 1
  = Some (Binary64.west Binary64.CLEVELAND_BBOX
          + 0.5 * (Binary64.east Binary64.CLEVELAND_BBOX
                   - Binary64.west Binary64.CLEVELAND_BBOX),
          Binary64.north Binary64.CLEVELAND_BBOX
          - 0.5 * (Binary64.north Binary64.CLEVELAND_BBOX
                   - Binary64.south Binary64.CLEVELAND_BBOX)) /\
  (fst (Binary64.geo_point Binary64.CLEVELAND_BBOX (0, 0))
   =? Binary64.west Binary64.CLEVELAND_BBOX) = true /\
  (snd (Binary64.geo_point Binary64.CLEVELAND_BBOX (0, 0))
   =? Binary64.north Binary64.CLEVELAND_BBOX) = true /\
  Binary64.geo_point Binary64.CLEVELAND_BBOX (1, 1)
  = (Binary64.east Binary64.CLEVELAND_BBOX,
     Binary64.south Binary64.CLEVELAND_BBOX) /\
  Binary64.geo_point Binary64.CLEVELAND_BBOX (0.5, 0.5)
  = (-81.685, next_up 41.495) /\
  next_up 41.495 = 41.495000000000005.
Proof.
  apply (georeferencer_binary64 Binary64.CLEVELAND_BBOX
           [(0, 0); (0.5, 0.5)] 1 0.5 0.5);
    vm_compute; reflexivity.
Defined.

End Binary64Facts.
